(** * Document scanner: camera capture and OCR enhancement

    A shallow embedding of the camera module of the document scanner
    (the script that drives the page with the live camera view) and the
    properties of its capture-and-enhance pipeline.

    - [Number]: JavaScript numbers, as IEEE 754 binary64 values of the
      Standard Library's [SpecFloat], with the two decimal literals of the
      enhancer and [Math.min] / [Math.max].
    - [Enhancer]: [enhanceImageForOCR], the loop over the pixel array of an
      [ImageData], with the reads and the clamped, rounding writes of a
      [Uint8ClampedArray].
    - [Camera]: the module state ([stream], [cameraActive], [cameraFacing],
      [capturedImage]), the page elements the script reads and writes, and
      the handlers [checkCameraAvailability], [startCamera], [stopCamera],
      [switchCamera], [capturePhoto], [retakePhoto], [saveDocument],
      written in a small monad of state, trace and exceptions. *)

From stdpp Require Import base list strings.
From Stdlib Require Import ZArith QArith Qround Qminmax Lia Lqa.
From Stdlib Require Import Floats.SpecFloat.

Local Open Scope Z_scope.

(** ** JavaScript numbers *)

Module Number.

(** binary64: 53 bits of precision, infinities at exponent 1024. *)
Definition prec : Z := 53.
Definition emax : Z := 1024.

(** An integer read as a number: exact for every element of a byte array. *)
Definition of_int (z : Z) : spec_float := binary_normalize prec emax z 0 false.

Definition add : spec_float -> spec_float -> spec_float := SFadd prec emax.
Definition sub : spec_float -> spec_float -> spec_float := SFsub prec emax.
Definition mul : spec_float -> spec_float -> spec_float := SFmul prec emax.
Definition div : spec_float -> spec_float -> spec_float := SFdiv prec emax.

(** The literal [1.4] is the double nearest to 14/10, 0x1.6666666666666p+0;
    the literal [1.1] is the double nearest to 11/10, 0x1.199999999999ap+0. *)
Definition lit_1_4 : spec_float := S754_finite false 6305039478318694 (-52).
Definition lit_1_1 : spec_float := S754_finite false 4953959590107546 (-52).

(** [Math.max] and [Math.min] of two numbers: NaN if either is NaN, and
    [+0] counts as larger than [-0]. *)
Definition max (x y : spec_float) : spec_float :=
  match SFcompare x y with
  | None => S754_nan
  | Some Lt => y
  | Some Gt => x
  | Some Eq => match x with S754_zero true => y | _ => x end
  end.

Definition min (x y : spec_float) : spec_float :=
  match SFcompare x y with
  | None => S754_nan
  | Some Lt => x
  | Some Gt => y
  | Some Eq => match x with S754_zero false => y | _ => x end
  end.

(** The rational a finite number denotes (0 for zeros; not used on
    infinities and NaN). *)
Definition to_Q (x : spec_float) : Q :=
  match x with
  | S754_finite s m e =>
      let a := match e with
               | Z0 => inject_Z (Zpos m)
               | Zpos k => inject_Z (Zpos m * 2 ^ Zpos k)
               | Zneg k => Zpos m # (2 ^ k)
               end in
      if s then Qopp a else a
  | _ => 0%Q
  end.

End Number.

(** ** Rounding and clamping over the rationals *)

(** Round to the nearest integer, ties to the even one. *)
Definition round_half_even (q : Q) : Z :=
  let f := Qfloor q in
  match Qcompare (q - inject_Z f) (1 # 2) with
  | Lt => f
  | Gt => f + 1
  | Eq => if Z.even f then f else f + 1
  end.

(** [clamp lo hi x] is [min(hi, max(lo, x))]. *)
Definition clamp (lo hi x : Q) : Q := Qmin hi (Qmax lo x).

(** ** The enhancer *)

Module Enhancer.

(** An [ImageData]: [data] is a [Uint8ClampedArray] of [4 * width * height]
    bytes, R, G, B, A for each pixel, row by row. *)
Record ImageData : Type := {
  width : Z;
  height : Z;
  data : list Z
}.

Definition is_byte (v : Z) : Prop := 0 <= v <= 255.

(** The conversion a [Uint8ClampedArray] applies to a stored number
    (ToUint8Clamp): NaN gives 0, the value is clamped to [0, 255] and
    rounded to the nearest integer, ties to even. *)
Definition ToUint8Clamp (x : spec_float) : Z :=
  match x with
  | S754_nan => 0
  | S754_zero _ => 0
  | S754_infinity s => if s then 0 else 255
  | S754_finite _ _ _ => round_half_even (clamp 0 255 (Number.to_Q x))
  end.

(** [data[i]] used as an operand: the element as a number, and NaN past
    the end (there [data[i]] is [undefined], which arithmetic reads as
    NaN). *)
Definition get (d : list Z) (i : nat) : spec_float :=
  match d !! i with
  | Some v => Number.of_int v
  | None => S754_nan
  end.

(** [data[i] = x]: a store past the end of a typed array is ignored. *)
Definition set (d : list Z) (i : nat) (x : spec_float) : list Z :=
  <[ i := ToUint8Clamp x ]> d.

Definition contrastFactor : spec_float := Number.lit_1_4.
Definition brightnessFactor : spec_float := Number.lit_1_1.

(** The arithmetic on one channel: contrast about 128, then brightness. *)
Definition adjust (c : spec_float) : spec_float :=
  let c := Number.add (Number.mul (Number.sub c (Number.of_int 128)) contrastFactor)
                      (Number.of_int 128) in
  Number.mul c brightnessFactor.

Definition limit (c : spec_float) : spec_float :=
  Number.min (Number.of_int 255) (Number.max (Number.of_int 0) c).

(** The body of the loop, for the pixel that starts at index [i]. *)
Definition enhance_pixel (d : list Z) (i : nat) : list Z :=
  let r := get d i in
  let g := get d (i + 1) in
  let b := get d (i + 2) in
  let r := adjust r in
  let g := adjust g in
  let b := adjust b in
  let d := set d i (limit r) in
  let d := set d (i + 1) (limit g) in
  set d (i + 2) (limit b).

(** [for (let i = 0; i < data.length; i += 4) body]: the loop from index
    [i], returning the final index with the array.  [fuel] bounds the
    number of iterations. *)
Fixpoint enhance_loop (fuel i : nat) (d : list Z) : nat * list Z :=
  match fuel with
  | O => (i, d)
  | S fuel' =>
      if (i <? length d)%nat
      then enhance_loop fuel' (i + 4) (enhance_pixel d i)
      else (i, d)
  end.

(** The array is modified in place and the same [ImageData] is returned:
    its dimensions are those of the argument. *)
Definition enhanceImageForOCR (imageData : ImageData) : ImageData :=
  {| width := width imageData;
     height := height imageData;
     data := snd (enhance_loop (length (data imageData)) 0 (data imageData)) |}.

(** What the loop does to the byte [v] of a colour channel. *)
Definition enhance_channel (v : Z) : Z :=
  ToUint8Clamp (limit (adjust (Number.of_int v))).

(** The transform as the specification writes it, over the rationals:
    [clamp(0, 255, ((v - 128) * 1.4 + 128) * 1.1)], stored as the nearest
    byte. *)
Definition enhance_exact (v : Z) : Q :=
  clamp 0 255 (((inject_Z v - 128) * (14 # 10) + 128) * (11 # 10)).

Definition enhance_spec (v : Z) : Z := round_half_even (enhance_exact v).

(** The transform with the two steps in the other order: brightness, then
    contrast about 128. *)
Definition adjust_swapped (c : spec_float) : spec_float :=
  let c := Number.mul c brightnessFactor in
  Number.add (Number.mul (Number.sub c (Number.of_int 128)) contrastFactor)
             (Number.of_int 128).

Definition swapped_channel (v : Z) : Z :=
  ToUint8Clamp (limit (adjust_swapped (Number.of_int v))).

Definition swapped_exact (v : Z) : Q :=
  clamp 0 255 ((inject_Z v * (11 # 10) - 128) * (14 # 10) + 128).

(** Channel of the byte at index [i]: 0, 1, 2 for R, G, B and 3 for alpha. *)
Definition channel (i : nat) : nat := (i mod 4)%nat.

Definition sample_image : ImageData :=
  {| width := 1; height := 2; data := [0; 128; 255; 255; 83; 133; 183; 7] |}.

(** The values a byte can take. *)
Definition all_bytes : list Z := List.map Z.of_nat (List.seq 0 256).

End Enhancer.

(** ** The camera module *)

Module Camera.

(** *** Values *)

(** A string whose characters the script inspects: UTF-16 code units.
    Texts that are only displayed are [string]s. *)
Definition jsstring : Type := list N.

Definition truthy (s : jsstring) : bool :=
  match s with [] => false | _ :: _ => true end.

(** White space and line terminators, the characters [trim] removes. *)
Definition is_whitespace (c : N) : bool :=
  (existsb (N.eqb c)
     [9; 10; 11; 12; 13; 32; 160; 5760; 8232; 8233; 8239; 8287; 12288; 65279]%N
   || ((8192 <=? c) && (c <=? 8202))%N)%bool.

Fixpoint trimStart (s : jsstring) : jsstring :=
  match s with
  | c :: s' => if is_whitespace c then trimStart s' else s
  | [] => []
  end.

Definition trim (s : jsstring) : jsstring :=
  reverse (trimStart (reverse (trimStart s))).

(** [a || b] on strings. *)
Definition or_else (a b : jsstring) : jsstring := if truthy a then a else b.

(** The camera the page asks for: ['user'] or ['environment']. *)
Inductive Facing : Type := user | environment.

(** Values the script gives to [style.display]; [display_default] stands
    for the value the page itself sets. *)
Inductive Display : Type :=
| display_default
| display_none
| display_block
| display_flex
| display_inline_block.

(** A [MediaStream], by identity. *)
Definition StreamId : Type := nat.

(** An error object: [error.name] and [error.message]. *)
Record Exn : Type := { exn_name : string; exn_message : string }.

Record Constraints : Type := {
  facingMode : Facing;
  width_ideal : Z;
  width_min : Z;
  height_ideal : Z;
  height_min : Z;
  aspectRatio_ideal : spec_float
}.

Inductive FocusMode : Type := focus_none | focus_manual | focus_single_shot | focus_continuous.

(** [getCapabilities()]: [cap_focusMode] is [None] when the track reports
    no focus modes, and the maxima are [None] when the range or its [max]
    is missing. *)
Record Capabilities : Type := {
  cap_focusMode : option (list FocusMode);
  cap_width_max : option Z;
  cap_height_max : option Z
}.

(** The object given to [applyConstraints]. *)
Record Settings : Type := {
  set_focusMode : option FocusMode;
  set_width : option Z;
  set_height : option Z
}.

Inductive MediaDeviceKind : Type := audioinput | audiooutput | videoinput.

(** The body of the request to the save endpoint. *)
Record SaveRequest : Type := {
  image : jsstring;
  title : jsstring;
  folder_id : option jsstring
}.

(** The parsed response of the save endpoint. *)
Record SaveResult : Type := {
  success : bool;
  redirect_url : option jsstring;
  error : option string
}.

(** *** What the platform answers *)

(** The outcome of an awaited promise; the function that awaits an
    [Unsettled] promise never resumes. *)
Inductive Settled (A : Type) : Type :=
| Fulfilled (a : A)
| Rejected (e : Exn)
| Unsettled.
Arguments Fulfilled {A} a.
Arguments Rejected {A} e.
Arguments Unsettled {A}.

(** [navigator.mediaDevices], when present. *)
Record MediaDevices : Type := {
  has_getUserMedia : bool;
  enumerateDevices_result : Settled (list MediaDeviceKind)
}.

Record Navigator : Type := { mediaDevices : option MediaDevices }.

(** The answers to one run of [startCamera]. *)
Record StartEnv : Type := {
  getUserMedia_result : Settled unit;
  loadedmetadata : bool;
  getCapabilities_result : Exn + Capabilities;
  applyConstraints_result : Settled unit
}.

(** The video at the moment of a capture: its dimensions, the frame as
    [drawImage] paints it on a canvas of these dimensions, and the JPEG
    encoder behind [toDataURL]. *)
Record CaptureEnv : Type := {
  videoWidth : Z;
  videoHeight : Z;
  frame : list Z;
  toDataURL : Enhancer.ImageData -> jsstring
}.

(** The answers to one run of [saveDocument]: the text of
    [new Date().toLocaleString('ru-RU')] and the response to the request
    ([Rejected] when the transport or the parsing fails). *)
Record SaveEnv : Type := {
  now_locale : jsstring;
  fetch_result : Settled SaveResult
}.

(** *** State *)

(** The page elements the script reads or writes.  The switch button, the
    title input and the folder select are only used under a guard
    ([if (switchBtn)], [titleInput ? ... : '']) and may be missing; the
    other elements are dereferenced unguarded and are taken to exist.
    Button captions and console output are left out. *)
Record Dom : Type := {
  video_srcObject : option StreamId;
  canvas : Enhancer.ImageData;
  preview_src : option jsstring;
  startBtn_disabled : bool;
  startBtn_display : Display;
  switchBtn_display : option Display;
  saveBtn_disabled : bool;
  titleInput_value : option jsstring;
  folderSelect_value : option jsstring;
  cameraView_display : Display;
  captureControls_display : Display;
  previewView_display : Display;
  previewControls_display : Display
}.

(** The variables of the module, the page, and the identity the platform
    gives to the next stream it opens. *)
Record State : Type := {
  stream : option StreamId;
  cameraActive : bool;
  cameraFacing : Facing;
  capturedImage : option jsstring;
  dom : Dom;
  next_stream : StreamId
}.

(** *** Effects *)

Inductive Event : Type :=
| getUserMedia_requested (c : Constraints)
| stream_opened (id : StreamId)
| tracks_stopped (id : StreamId)
| video_play
| applyConstraints_requested (s : Settings)
| error_shown (message : string)
| success_shown (message : string)
| fetch_requested (url : string) (body : SaveRequest)
| navigation_scheduled (delay : Z) (url : option jsstring)
| titleInput_focused.

(** How a run ends: it returns, throws, or stays suspended on a promise
    that never settles. *)
Inductive Completion (A : Type) : Type :=
| Return (a : A)
| Throw (e : Exn)
| Pending.
Arguments Return {A} a.
Arguments Throw {A} e.
Arguments Pending {A}.

Definition M (A : Type) : Type := State -> Completion A * State * list Event.

#[export] Instance M_ret : MRet M := fun A a s => (Return a, s, []).

#[export] Instance M_bind : MBind M := fun A B k m s =>
  match m s with
  | (Return a, s1, t1) => let '(c, s2, t2) := k a s1 in (c, s2, t1 ++ t2)
  | (Throw e, s1, t1) => (Throw e, s1, t1)
  | (Pending, s1, t1) => (Pending, s1, t1)
  end.

Definition throw {A : Type} (e : Exn) : M A := fun s => (Throw e, s, []).
Definition suspend {A : Type} : M A := fun s => (Pending, s, []).
Definition get : M State := fun s => (Return s, s, []).
Definition modify (f : State -> State) : M unit := fun s => (Return tt, f s, []).
Definition emit (e : Event) : M unit := fun s => (Return tt, s, [e]).

(** [try { m } catch (error) { h error }] *)
Definition try_catch {A : Type} (m : M A) (h : Exn -> M A) : M A := fun s =>
  match m s with
  | (Throw e, s1, t1) => let '(c, s2, t2) := h e s1 in (c, s2, t1 ++ t2)
  | r => r
  end.

(** [await p] *)
Definition await {A : Type} (p : Settled A) : M A :=
  match p with
  | Fulfilled a => mret a
  | Rejected e => throw e
  | Unsettled => suspend
  end.

(** A call whose promise is dropped: the caller goes on whatever becomes
    of it, as for an [async] function called without [await] and for a
    handler run by the event loop. *)
Definition detached (m : M unit) : M unit := fun s =>
  let '(_, s1, t1) := m s in (Return tt, s1, t1).

(** *** Assignments *)

(** One function for each variable and each element property the script
    assigns. *)
Definition with_stream (v : option StreamId) (s : State) : State :=
  {| stream := v;
     cameraActive := cameraActive s;
     cameraFacing := cameraFacing s;
     capturedImage := capturedImage s;
     dom := dom s;
     next_stream := next_stream s |}.

Definition with_cameraActive (v : bool) (s : State) : State :=
  {| stream := stream s;
     cameraActive := v;
     cameraFacing := cameraFacing s;
     capturedImage := capturedImage s;
     dom := dom s;
     next_stream := next_stream s |}.

Definition with_cameraFacing (v : Facing) (s : State) : State :=
  {| stream := stream s;
     cameraActive := cameraActive s;
     cameraFacing := v;
     capturedImage := capturedImage s;
     dom := dom s;
     next_stream := next_stream s |}.

Definition with_capturedImage (v : option jsstring) (s : State) : State :=
  {| stream := stream s;
     cameraActive := cameraActive s;
     cameraFacing := cameraFacing s;
     capturedImage := v;
     dom := dom s;
     next_stream := next_stream s |}.

Definition with_dom (v : Dom) (s : State) : State :=
  {| stream := stream s;
     cameraActive := cameraActive s;
     cameraFacing := cameraFacing s;
     capturedImage := capturedImage s;
     dom := v;
     next_stream := next_stream s |}.

Definition with_next_stream (v : StreamId) (s : State) : State :=
  {| stream := stream s;
     cameraActive := cameraActive s;
     cameraFacing := cameraFacing s;
     capturedImage := capturedImage s;
     dom := dom s;
     next_stream := v |}.

Definition dom_with_video_srcObject (v : option StreamId) (d : Dom) : Dom :=
  {| video_srcObject := v;
     canvas := canvas d;
     preview_src := preview_src d;
     startBtn_disabled := startBtn_disabled d;
     startBtn_display := startBtn_display d;
     switchBtn_display := switchBtn_display d;
     saveBtn_disabled := saveBtn_disabled d;
     titleInput_value := titleInput_value d;
     folderSelect_value := folderSelect_value d;
     cameraView_display := cameraView_display d;
     captureControls_display := captureControls_display d;
     previewView_display := previewView_display d;
     previewControls_display := previewControls_display d |}.

Definition dom_with_canvas (v : Enhancer.ImageData) (d : Dom) : Dom :=
  {| video_srcObject := video_srcObject d;
     canvas := v;
     preview_src := preview_src d;
     startBtn_disabled := startBtn_disabled d;
     startBtn_display := startBtn_display d;
     switchBtn_display := switchBtn_display d;
     saveBtn_disabled := saveBtn_disabled d;
     titleInput_value := titleInput_value d;
     folderSelect_value := folderSelect_value d;
     cameraView_display := cameraView_display d;
     captureControls_display := captureControls_display d;
     previewView_display := previewView_display d;
     previewControls_display := previewControls_display d |}.

Definition dom_with_preview_src (v : option jsstring) (d : Dom) : Dom :=
  {| video_srcObject := video_srcObject d;
     canvas := canvas d;
     preview_src := v;
     startBtn_disabled := startBtn_disabled d;
     startBtn_display := startBtn_display d;
     switchBtn_display := switchBtn_display d;
     saveBtn_disabled := saveBtn_disabled d;
     titleInput_value := titleInput_value d;
     folderSelect_value := folderSelect_value d;
     cameraView_display := cameraView_display d;
     captureControls_display := captureControls_display d;
     previewView_display := previewView_display d;
     previewControls_display := previewControls_display d |}.

Definition dom_with_startBtn_disabled (v : bool) (d : Dom) : Dom :=
  {| video_srcObject := video_srcObject d;
     canvas := canvas d;
     preview_src := preview_src d;
     startBtn_disabled := v;
     startBtn_display := startBtn_display d;
     switchBtn_display := switchBtn_display d;
     saveBtn_disabled := saveBtn_disabled d;
     titleInput_value := titleInput_value d;
     folderSelect_value := folderSelect_value d;
     cameraView_display := cameraView_display d;
     captureControls_display := captureControls_display d;
     previewView_display := previewView_display d;
     previewControls_display := previewControls_display d |}.

Definition dom_with_startBtn_display (v : Display) (d : Dom) : Dom :=
  {| video_srcObject := video_srcObject d;
     canvas := canvas d;
     preview_src := preview_src d;
     startBtn_disabled := startBtn_disabled d;
     startBtn_display := v;
     switchBtn_display := switchBtn_display d;
     saveBtn_disabled := saveBtn_disabled d;
     titleInput_value := titleInput_value d;
     folderSelect_value := folderSelect_value d;
     cameraView_display := cameraView_display d;
     captureControls_display := captureControls_display d;
     previewView_display := previewView_display d;
     previewControls_display := previewControls_display d |}.

Definition dom_with_switchBtn_display (v : option Display) (d : Dom) : Dom :=
  {| video_srcObject := video_srcObject d;
     canvas := canvas d;
     preview_src := preview_src d;
     startBtn_disabled := startBtn_disabled d;
     startBtn_display := startBtn_display d;
     switchBtn_display := v;
     saveBtn_disabled := saveBtn_disabled d;
     titleInput_value := titleInput_value d;
     folderSelect_value := folderSelect_value d;
     cameraView_display := cameraView_display d;
     captureControls_display := captureControls_display d;
     previewView_display := previewView_display d;
     previewControls_display := previewControls_display d |}.

Definition dom_with_saveBtn_disabled (v : bool) (d : Dom) : Dom :=
  {| video_srcObject := video_srcObject d;
     canvas := canvas d;
     preview_src := preview_src d;
     startBtn_disabled := startBtn_disabled d;
     startBtn_display := startBtn_display d;
     switchBtn_display := switchBtn_display d;
     saveBtn_disabled := v;
     titleInput_value := titleInput_value d;
     folderSelect_value := folderSelect_value d;
     cameraView_display := cameraView_display d;
     captureControls_display := captureControls_display d;
     previewView_display := previewView_display d;
     previewControls_display := previewControls_display d |}.

Definition dom_with_cameraView_display (v : Display) (d : Dom) : Dom :=
  {| video_srcObject := video_srcObject d;
     canvas := canvas d;
     preview_src := preview_src d;
     startBtn_disabled := startBtn_disabled d;
     startBtn_display := startBtn_display d;
     switchBtn_display := switchBtn_display d;
     saveBtn_disabled := saveBtn_disabled d;
     titleInput_value := titleInput_value d;
     folderSelect_value := folderSelect_value d;
     cameraView_display := v;
     captureControls_display := captureControls_display d;
     previewView_display := previewView_display d;
     previewControls_display := previewControls_display d |}.

Definition dom_with_captureControls_display (v : Display) (d : Dom) : Dom :=
  {| video_srcObject := video_srcObject d;
     canvas := canvas d;
     preview_src := preview_src d;
     startBtn_disabled := startBtn_disabled d;
     startBtn_display := startBtn_display d;
     switchBtn_display := switchBtn_display d;
     saveBtn_disabled := saveBtn_disabled d;
     titleInput_value := titleInput_value d;
     folderSelect_value := folderSelect_value d;
     cameraView_display := cameraView_display d;
     captureControls_display := v;
     previewView_display := previewView_display d;
     previewControls_display := previewControls_display d |}.

Definition dom_with_previewView_display (v : Display) (d : Dom) : Dom :=
  {| video_srcObject := video_srcObject d;
     canvas := canvas d;
     preview_src := preview_src d;
     startBtn_disabled := startBtn_disabled d;
     startBtn_display := startBtn_display d;
     switchBtn_display := switchBtn_display d;
     saveBtn_disabled := saveBtn_disabled d;
     titleInput_value := titleInput_value d;
     folderSelect_value := folderSelect_value d;
     cameraView_display := cameraView_display d;
     captureControls_display := captureControls_display d;
     previewView_display := v;
     previewControls_display := previewControls_display d |}.

Definition dom_with_previewControls_display (v : Display) (d : Dom) : Dom :=
  {| video_srcObject := video_srcObject d;
     canvas := canvas d;
     preview_src := preview_src d;
     startBtn_disabled := startBtn_disabled d;
     startBtn_display := startBtn_display d;
     switchBtn_display := switchBtn_display d;
     saveBtn_disabled := saveBtn_disabled d;
     titleInput_value := titleInput_value d;
     folderSelect_value := folderSelect_value d;
     cameraView_display := cameraView_display d;
     captureControls_display := captureControls_display d;
     previewView_display := previewView_display d;
     previewControls_display := v |}.

Definition assign (f : State -> State) : M unit := modify f.

Definition assign_dom (f : Dom -> Dom) : M unit :=
  modify (fun s => with_dom (f (dom s)) s).

(** *** The script *)

#[export] Instance MediaDeviceKind_eq_dec : EqDecision MediaDeviceKind.
Proof. solve_decision. Defined.

#[export] Instance FocusMode_eq_dec : EqDecision FocusMode.
Proof. solve_decision. Defined.

Definition msg_unsupported : string := "Ваш браузер не поддерживает работу с камерой".
Definition msg_no_camera : string := "Камера не найдена на устройстве".
Definition msg_access : string := "Не удалось получить доступ к камере. ".
Definition msg_not_allowed : string := "Разрешите доступ к камере в настройках браузера.".
Definition msg_not_found : string := "Камера не найдена.".
Definition msg_not_readable : string := "Камера уже используется другим приложением.".
Definition msg_not_active : string := "Камера не активна".
Definition msg_capture_failed : string := "Не удалось захватить изображение".
Definition msg_nothing_to_save : string := "Нет изображения для сохранения".
Definition msg_saved : string := "Документ успешно сохранен".
Definition msg_save_failed : string := "Ошибка при сохранении документа".
Definition msg_transport : string := "Ошибка связи с сервером".

(** The alert boxes of [showError] and [showSuccess]. *)
Definition showError (message : string) : M unit := emit (error_shown message).
Definition showSuccess (message : string) : M unit := emit (success_shown message).

Definition TypeError : Exn := {| exn_name := "TypeError"; exn_message := "" |}.
Definition IndexSizeError : Exn := {| exn_name := "IndexSizeError"; exn_message := "" |}.

(** [navigator.mediaDevices.enumerateDevices()] *)
Definition enumerateDevices (navigator : Navigator) : M (list MediaDeviceKind) :=
  match mediaDevices navigator with
  | Some md => await (enumerateDevices_result md)
  | None => throw TypeError
  end.

(** [navigator.mediaDevices && navigator.mediaDevices.getUserMedia] *)
Definition camera_supported (navigator : Navigator) : bool :=
  match mediaDevices navigator with
  | Some md => has_getUserMedia md
  | None => false
  end.

Definition checkCameraAvailability (navigator : Navigator) : M unit :=
  if negb (camera_supported navigator) then
    showError msg_unsupported;;
    assign_dom (dom_with_startBtn_disabled true)
  else
    try_catch
      (devices ← enumerateDevices navigator;
       let videoDevices := filter (fun device => device = videoinput) devices in
       if (length videoDevices =? 0)%nat then
         showError msg_no_camera;;
         assign_dom (dom_with_startBtn_disabled true)
       else
         s ← get;
         if ((1 <? length videoDevices)%nat && bool_decide (is_Some (switchBtn_display (dom s))))%bool
         then assign_dom (dom_with_switchBtn_display (Some display_inline_block))
         else mret tt)
      (fun error => mret tt).

Definition stopCamera : M unit :=
  s ← get;
  match stream s with
  | Some id => emit (tracks_stopped id);; assign (with_stream None)
  | None => mret tt
  end;;
  assign_dom (dom_with_video_srcObject None);;
  assign (with_cameraActive false).

Definition updateUI : M unit :=
  s ← get;
  if cameraActive s then
    assign_dom (dom_with_startBtn_display display_none);;
    assign_dom (dom_with_cameraView_display display_block);;
    assign_dom (dom_with_captureControls_display display_flex)
  else
    assign_dom (dom_with_startBtn_display display_inline_block);;
    assign_dom (dom_with_startBtn_disabled false);;
    assign_dom (dom_with_cameraView_display display_none);;
    assign_dom (dom_with_captureControls_display display_none).

(** [await navigator.mediaDevices.getUserMedia(constraints)]: when the
    promise is fulfilled the platform has opened a new stream. *)
Definition getUserMedia (env : StartEnv) (constraints : Constraints) : M StreamId :=
  emit (getUserMedia_requested constraints);;
  await (getUserMedia_result env);;
  s ← get;
  let id := next_stream s in
  assign (with_next_stream (S id));;
  emit (stream_opened id);;
  mret id.

(** [stream.getVideoTracks()[0].getCapabilities()] *)
Definition getCapabilities (env : StartEnv) : M Capabilities :=
  match getCapabilities_result env with
  | inl e => throw e
  | inr capabilities => mret capabilities
  end.

Definition focus_setting (capabilities : Capabilities) : option FocusMode :=
  match cap_focusMode capabilities with
  | Some modes =>
      if bool_decide (focus_continuous ∈ modes) then Some focus_continuous
      else if bool_decide (focus_single_shot ∈ modes) then Some focus_single_shot
      else None
  | None => None
  end.

(** [if (range && range.max) settings.x = Math.min(range.max, cap)] *)
Definition size_setting (max : option Z) (cap : Z) : option Z :=
  match max with
  | Some m => if m =? 0 then None else Some (Z.min m cap)
  | None => None
  end.

Definition startCamera (env : StartEnv) : M unit :=
  try_catch
    (assign_dom (dom_with_startBtn_disabled true);;
     s ← get;
     (if stream s is Some _ then stopCamera else mret tt);;
     s ← get;
     let constraints :=
       {| facingMode := cameraFacing s;
          width_ideal := 1920; width_min := 1280;
          height_ideal := 1080; height_min := 720;
          aspectRatio_ideal := Number.div (Number.of_int 16) (Number.of_int 9) |} in
     id ← getUserMedia env constraints;
     assign (with_stream (Some id));;
     assign_dom (dom_with_video_srcObject (Some id));;
     (if loadedmetadata env then emit video_play else suspend);;
     capabilities ← getCapabilities env;
     let settings :=
       {| set_focusMode := focus_setting capabilities;
          set_width := size_setting (cap_width_max capabilities) 1920;
          set_height := size_setting (cap_height_max capabilities) 1080 |} in
     try_catch
       (emit (applyConstraints_requested settings);;
        await (applyConstraints_result env))
       (fun e => mret tt);;
     assign (with_cameraActive true);;
     updateUI)
    (fun error =>
       let errorMessage :=
         msg_access +:+
         (if String.eqb (exn_name error) "NotAllowedError" then msg_not_allowed
          else if String.eqb (exn_name error) "NotFoundError" then msg_not_found
          else if String.eqb (exn_name error) "NotReadableError" then msg_not_readable
          else exn_message error) in
       showError errorMessage;;
       assign_dom (dom_with_startBtn_disabled false)).

Definition switchCamera (env : StartEnv) : M unit :=
  assign (fun s => with_cameraFacing
                     (match cameraFacing s with environment => user | user => environment end) s);;
  s ← get;
  if cameraActive s then startCamera env else mret tt.

(** A canvas whose width or height has just been assigned is cleared. *)
Definition blank (w h : Z) : Enhancer.ImageData :=
  {| Enhancer.width := w; Enhancer.height := h;
     Enhancer.data := replicate (Z.to_nat (4 * w * h)) 0 |}.

(** [ctx.getImageData(0, 0, canvas.width, canvas.height)]: an
    IndexSizeError when a side is zero, else a copy of the bitmap. *)
Definition getImageData : M Enhancer.ImageData :=
  s ← get;
  let c := canvas (dom s) in
  if ((Enhancer.width c =? 0) || (Enhancer.height c =? 0))%bool
  then throw IndexSizeError
  else mret c.

Definition capturePhoto (env : CaptureEnv) : M unit :=
  s ← get;
  if negb (cameraActive s) then showError msg_not_active
  else
    try_catch
      (s ← get;
       assign_dom (dom_with_canvas (blank (videoWidth env) (Enhancer.height (canvas (dom s)))));;
       assign_dom (dom_with_canvas (blank (videoWidth env) (videoHeight env)));;
       (* drawImage(video, 0, 0, canvas.width, canvas.height) *)
       assign_dom (dom_with_canvas
                     {| Enhancer.width := videoWidth env;
                        Enhancer.height := videoHeight env;
                        Enhancer.data := frame env |});;
       imageData ← getImageData;
       let enhancedData := Enhancer.enhanceImageForOCR imageData in
       (* putImageData(enhancedData, 0, 0) *)
       assign_dom (dom_with_canvas enhancedData);;
       let dataUrl := toDataURL env enhancedData in
       assign_dom (dom_with_preview_src (Some dataUrl));;
       assign (with_capturedImage (Some dataUrl));;
       assign_dom (dom_with_cameraView_display display_none);;
       assign_dom (dom_with_captureControls_display display_none);;
       assign_dom (dom_with_previewView_display display_flex);;
       assign_dom (dom_with_previewControls_display display_flex);;
       stopCamera;;
       s ← get;
       (if titleInput_value (dom s) is Some _ then emit titleInput_focused else mret tt))
      (fun error => showError msg_capture_failed).

Definition retakePhoto (env : StartEnv) : M unit :=
  assign (with_capturedImage None);;
  assign_dom (dom_with_previewView_display display_none);;
  assign_dom (dom_with_previewControls_display display_none);;
  assign_dom (dom_with_cameraView_display display_block);;
  assign_dom (dom_with_captureControls_display display_flex);;
  detached (startCamera env).

(** [capturedImage] as a condition: [null] and the empty string are false. *)
Definition image_held (s : State) : bool :=
  match capturedImage s with
  | Some img => truthy img
  | None => false
  end.

(** The text "Скан " that starts the default title. *)
Definition default_title_prefix : jsstring := [1057; 1082; 1072; 1085; 32]%N.

Definition save_url : string := "/scanner/capture".

(** [titleInput ? titleInput.value.trim() : ''] *)
Definition entered_title (s : State) : jsstring :=
  match titleInput_value (dom s) with
  | Some v => trim v
  | None => []
  end.

(** [folderSelect ? folderSelect.value : ''] *)
Definition selected_folder (s : State) : jsstring :=
  match folderSelect_value (dom s) with
  | Some v => v
  | None => []
  end.

Definition saveDocument (env : SaveEnv) : M unit :=
  s ← get;
  if negb (image_held s) then showError msg_nothing_to_save
  else
    let title := or_else (entered_title s) (default_title_prefix ++ now_locale env) in
    let folderId :=
      if truthy (selected_folder s) then Some (selected_folder s) else None in
    assign_dom (dom_with_saveBtn_disabled true);;
    try_catch
      (emit (fetch_requested save_url
               {| image := default [] (capturedImage s);
                  title := title;
                  folder_id := folderId |});;
       result ← await (fetch_result env);
       if success result then
         showSuccess msg_saved;;
         emit (navigation_scheduled 1000 (redirect_url result))
       else
         showError (match error result with
                    | Some e => if String.eqb e "" then msg_save_failed else e
                    | None => msg_save_failed
                    end);;
         assign_dom (dom_with_saveBtn_disabled false))
      (fun error =>
         showError msg_transport;;
         assign_dom (dom_with_saveBtn_disabled false)).

(** *** Runs *)

(** The calls the page makes: the handlers [initCamera] binds to the
    buttons, the availability check it runs, and [stopCamera], which the
    [beforeunload] listener calls.  Each comes with the answers of the
    platform to it. *)
Inductive Call : Type :=
| call_checkCameraAvailability (navigator : Navigator)
| call_startCamera (env : StartEnv)
| call_stopCamera
| call_switchCamera (env : StartEnv)
| call_capturePhoto (env : CaptureEnv)
| call_retakePhoto (env : StartEnv)
| call_saveDocument (env : SaveEnv).

Definition handler (c : Call) : M unit :=
  match c with
  | call_checkCameraAvailability navigator => checkCameraAvailability navigator
  | call_startCamera env => startCamera env
  | call_stopCamera => stopCamera
  | call_switchCamera env => switchCamera env
  | call_capturePhoto env => capturePhoto env
  | call_retakePhoto env => retakePhoto env
  | call_saveDocument env => saveDocument env
  end.

(** Calls run one after the other, each to its end. *)
Fixpoint run (calls : list Call) : M unit :=
  match calls with
  | [] => mret tt
  | c :: calls' => detached (handler c);; run calls'
  end.

Definition state_after {A : Type} (m : M A) (s : State) : State := snd (fst (m s)).
Definition trace_of {A : Type} (m : M A) (s : State) : list Event := snd (m s).
Definition completion_of {A : Type} (m : M A) (s : State) : Completion A := fst (fst (m s)).

(** The state when the script is loaded: the initial values of its
    variables, and a video element without a source. *)
Definition initial (s : State) : Prop :=
  stream s = None /\ cameraActive s = false /\ cameraFacing s = environment /\
  capturedImage s = None /\ video_srcObject (dom s) = None.

Definition reachable (s : State) : Prop :=
  exists s0 calls, initial s0 /\ state_after (run calls) s0 = s.

(** *** Views and resources *)

Inductive ViewState : Type := LIVE | PREVIEW.

(** The view the page presents: the camera view or the still preview. *)
Definition viewState (s : State) : option ViewState :=
  match cameraView_display (dom s), previewView_display (dom s) with
  | display_block, display_none => Some LIVE
  | display_none, display_flex => Some PREVIEW
  | _, _ => None
  end.

(** The streams that are open after an event, given those open before. *)
Definition account (live : list StreamId) (e : Event) : list StreamId :=
  match e with
  | stream_opened id => id :: live
  | tracks_stopped id => filter (fun i => i <> id) live
  | _ => live
  end.

Definition live_after (t : list Event) (live : list StreamId) : list StreamId :=
  fold_left account t live.

(** At every point of the trace at most one stream is open. *)
Definition at_most_one_stream (t : list Event) : Prop :=
  forall t1 t2, t = t1 ++ t2 -> (length (live_after t1 []) <= 1)%nat.

(** The stream the module holds. *)
Definition held (s : State) : list StreamId :=
  match stream s with
  | Some id => [id]
  | None => []
  end.

(** [at_most_one_stream], as a check along the trace from the streams
    that are open at its start. *)
Fixpoint within_one (t : list Event) (live : list StreamId) : bool :=
  (length live <=? 1)%nat &&
  match t with
  | [] => true
  | e :: t' => within_one t' (account live e)
  end.

(** The events that open or release a stream. *)
Definition is_stream_event (e : Event) : bool :=
  match e with
  | stream_opened _ | tracks_stopped _ => true
  | _ => false
  end.

Definition stream_events (t : list Event) : list Event := List.filter is_stream_event t.

(** A run from [s] keeps the account: along its trace at most one stream
    is open, and at its end the open stream is the one the module holds. *)
Definition accounted {A : Type} (s : State) (r : Completion A * State * list Event) : Prop :=
  within_one (snd r) (held s) = true /\
  live_after (snd r) (held s) = held (snd (fst r)).

(** Without a stream the camera is not active and the video has no source. *)
Definition consistent (s : State) : Prop :=
  stream s = None -> cameraActive s = false /\ video_srcObject (dom s) = None.

(** *** The availability report *)

(** The platform exposes no camera-access capability. *)
Definition no_capability (navigator : Navigator) : Prop :=
  mediaDevices navigator = None \/
  exists md, mediaDevices navigator = Some md /\ has_getUserMedia md = false.

Definition video_inputs (devices : list MediaDeviceKind) : nat :=
  length (filter (fun device => device = videoinput) devices).

(** The enumeration yields [n] video-input devices. *)
Definition enumerated (navigator : Navigator) (n : nat) : Prop :=
  exists md devices,
    mediaDevices navigator = Some md /\ has_getUserMedia md = true /\
    enumerateDevices_result md = Fulfilled devices /\
    n = video_inputs devices.

(** The requests a trace makes to the save endpoint. *)
Definition requests (t : list Event) : list SaveRequest :=
  omap (fun e => match e with fetch_requested _ body => Some body | _ => None end) t.

(** *** Sample values *)

Definition sample_dom : Dom :=
  {| video_srcObject := None;
     canvas := blank 300 150;
     preview_src := None;
     startBtn_disabled := false;
     startBtn_display := display_default;
     switchBtn_display := Some display_none;
     saveBtn_disabled := false;
     titleInput_value := Some [32; 32]%N;
     folderSelect_value := Some [];
     cameraView_display := display_none;
     captureControls_display := display_none;
     previewView_display := display_none;
     previewControls_display := display_none |}.

Definition sample_state : State :=
  {| stream := None;
     cameraActive := false;
     cameraFacing := environment;
     capturedImage := None;
     dom := sample_dom;
     next_stream := 0%nat |}.

Definition sample_start : StartEnv :=
  {| getUserMedia_result := Fulfilled tt;
     loadedmetadata := true;
     getCapabilities_result :=
       inr {| cap_focusMode := Some [focus_manual; focus_single_shot];
              cap_width_max := Some 4000;
              cap_height_max := Some 720 |};
     applyConstraints_result := Rejected TypeError |}.

Definition sample_capture : CaptureEnv :=
  {| videoWidth := 1;
     videoHeight := 1;
     frame := [0; 128; 255; 255];
     toDataURL := fun imageData => List.map Z.to_N (Enhancer.data imageData) |}.

Definition sample_save : SaveEnv :=
  {| now_locale := [49]%N;
     fetch_result :=
       Fulfilled {| success := true; redirect_url := Some [47]%N; error := None |} |}.

Definition sample_active : State := state_after (startCamera sample_start) sample_state.

Definition sample_captured : State :=
  state_after (capturePhoto sample_capture) sample_active.

Definition sample_calls : list Call :=
  [call_startCamera sample_start; call_switchCamera sample_start;
   call_capturePhoto sample_capture; call_saveDocument sample_save;
   call_retakePhoto sample_start; call_stopCamera].

(** *** Facings, requests and messages *)

(** [cameraFacing === 'environment' ? 'user' : 'environment'] *)
Definition toggle (f : Facing) : Facing :=
  match f with
  | environment => user
  | user => environment
  end.

Definition is_switch (c : Call) : bool :=
  match c with
  | call_switchCamera _ => true
  | _ => false
  end.

(** The number of calls of [switchCamera] in a run. *)
Definition switches (calls : list Call) : nat := length (List.filter is_switch calls).

(** The constraints [startCamera] asks [getUserMedia] for. *)
Definition constraints_for (f : Facing) : Constraints :=
  {| facingMode := f;
     width_ideal := 1920; width_min := 1280;
     height_ideal := 1080; height_min := 720;
     aspectRatio_ideal := Number.div (Number.of_int 16) (Number.of_int 9) |}.

(** The settings [startCamera] gives to [applyConstraints]. *)
Definition settings_for (capabilities : Capabilities) : Settings :=
  {| set_focusMode := focus_setting capabilities;
     set_width := size_setting (cap_width_max capabilities) 1920;
     set_height := size_setting (cap_height_max capabilities) 1080 |}.

(** The end of the message [startCamera] shows for an error. *)
Definition access_detail (e : Exn) : string :=
  if String.eqb (exn_name e) "NotAllowedError" then msg_not_allowed
  else if String.eqb (exn_name e) "NotFoundError" then msg_not_found
  else if String.eqb (exn_name e) "NotReadableError" then msg_not_readable
  else exn_message e.

(** An active camera holds the stream the video plays, and the camera view
    with its controls is shown. *)
Definition active_ok (s : State) : Prop :=
  cameraActive s = true ->
  stream s = video_srcObject (dom s) /\ stream s <> None /\
  cameraView_display (dom s) = display_block /\
  captureControls_display (dom s) = display_flex.

(** The navigations a trace schedules: the delay and the address. *)
Definition navigations (t : list Event) : list (Z * option jsstring) :=
  omap (fun e => match e with navigation_scheduled d u => Some (d, u) | _ => None end) t.

Definition sample_denied : StartEnv :=
  {| getUserMedia_result :=
       Rejected {| exn_name := "NotAllowedError"; exn_message := "Permission denied" |};
     loadedmetadata := true;
     getCapabilities_result := inl TypeError;
     applyConstraints_result := Unsettled |}.

Definition sample_busy : StartEnv :=
  {| getUserMedia_result :=
       Rejected {| exn_name := "NotReadableError"; exn_message := "Device in use" |};
     loadedmetadata := true;
     getCapabilities_result := inl TypeError;
     applyConstraints_result := Unsettled |}.

Definition sample_no_capabilities : StartEnv :=
  {| getUserMedia_result := Fulfilled tt;
     loadedmetadata := true;
     getCapabilities_result := inl TypeError;
     applyConstraints_result := Unsettled |}.

Definition sample_no_metadata : StartEnv :=
  {| getUserMedia_result := Fulfilled tt;
     loadedmetadata := false;
     getCapabilities_result := inl TypeError;
     applyConstraints_result := Unsettled |}.

Definition sample_empty_capture : CaptureEnv :=
  {| videoWidth := 0;
     videoHeight := 0;
     frame := [];
     toDataURL := fun imageData => List.map Z.to_N (Enhancer.data imageData) |}.

Definition sample_save_rejected : SaveEnv :=
  {| now_locale := [50]%N;
     fetch_result :=
       Fulfilled {| success := false; redirect_url := None; error := Some "quota" |} |}.

(** The events of a trace that show an error. *)
Definition errors (t : list Event) : list string :=
  omap (fun e => match e with error_shown m => Some m | _ => None end) t.

End Camera.

(** ** Strings *)

Module Str.

(** The code units of a text of ASCII characters. *)
Definition code_units (s : string) : Camera.jsstring :=
  List.map Ascii.N_of_ascii (String.list_ascii_of_string s).

(** [s.split(sep)] for a separator of one code unit: the pieces between
    the separators, in order; [cur] holds the piece being read, reversed. *)
Fixpoint split_on (sep : N) (cur s : Camera.jsstring) : list Camera.jsstring :=
  match s with
  | [] => [reverse cur]
  | c :: s' =>
      if (c =? sep)%N then reverse cur :: split_on sep [] s'
      else split_on sep (c :: cur) s'
  end.

Definition split (sep : N) (s : Camera.jsstring) : list Camera.jsstring :=
  split_on sep [] s.

(** [s.split(/\s+/)]: the pieces between the maximal runs of white space;
    [gap] tells that the last code unit read was white space. *)
Fixpoint split_ws_on (cur : Camera.jsstring) (gap : bool) (s : Camera.jsstring)
  : list Camera.jsstring :=
  match s with
  | [] => [reverse cur]
  | c :: s' =>
      if Camera.is_whitespace c then
        if gap then split_ws_on [] true s'
        else reverse cur :: split_ws_on [] true s'
      else split_ws_on (c :: cur) false s'
  end.

Definition split_ws (s : Camera.jsstring) : list Camera.jsstring :=
  split_ws_on [] false s.

(** ['A'..'Z'] to ['a'..'z'], other code units unchanged. *)
Definition ascii_lower (c : N) : N :=
  if ((65 <=? c) && (c <=? 90))%N then (c + 32)%N else c.

Definition is_ascii (c : N) : bool := (c <? 128)%N.

(** What is assumed of [toLowerCase]: on a text of ASCII characters it
    lowers the letters A to Z and keeps the rest. *)
Definition lowers_ascii (toLowerCase : Camera.jsstring -> Camera.jsstring) : Prop :=
  forall s, forallb is_ascii s = true -> toLowerCase s = List.map ascii_lower s.

End Str.

(** ** Upload checks *)

Module Upload.

(** A [File]: its name and its size in bytes. *)
Record File : Type := {
  name : Camera.jsstring;
  size : Z
}.

Definition allowedExtensions : list Camera.jsstring :=
  List.map Str.code_units ["pdf"; "jpg"; "jpeg"; "png"; "txt"; "docx"]%string.

(** [file.name.split('.').pop()]; [split] never gives an empty array. *)
Definition last_piece (n : Camera.jsstring) : Camera.jsstring :=
  default [] (last (Str.split 46 n)).

Definition validateFileType
    (toLowerCase : Camera.jsstring -> Camera.jsstring) (file : File) : bool :=
  let extension := toLowerCase (last_piece (name file)) in
  bool_decide (extension ∈ allowedExtensions).

Definition maxSize : Z := 50 * 1024 * 1024.

Definition validateFileSize (file : File) : bool := size file <=? maxSize.

(** [checkCameraSupport()] *)
Definition checkCameraSupport (navigator : Camera.Navigator) : bool :=
  match Camera.mediaDevices navigator with
  | Some md => Camera.has_getUserMedia md
  | None => false
  end.

End Upload.

(** ** Editor statistics *)

Module Editor.

(** [text.trim().split(/\s+/).filter(word => word.length > 0).length] *)
Definition countWords (text : Camera.jsstring) : nat :=
  length (filter (fun word : Camera.jsstring => (0 < length word)%nat)
                 (Str.split_ws (Camera.trim text))).

(** [text.split('\n').length] *)
Definition countLines (text : Camera.jsstring) : nat :=
  length (Str.split 10 text).

(** The number of words of a text: the code units that are not white
    space and follow white space or start the text; [after_ws] tells that
    the text comes after white space or at the start. *)
Fixpoint word_starts (after_ws : bool) (s : Camera.jsstring) : nat :=
  match s with
  | [] => 0
  | c :: s' =>
      if Camera.is_whitespace c then word_starts true s'
      else ((if after_ws then 1 else 0) + word_starts false s')%nat
  end.

(** The number of line feeds of a text. *)
Definition line_feeds (s : Camera.jsstring) : nat :=
  length (filter (fun c => c = 10%N) s).

End Editor.

(** ** The document library *)

Module Library.








End Library.

(** * Properties *)

(** ** Rounding and clamping *)

Section Rounding.

Local Open Scope Q_scope.

Lemma clamp_bounds (x : Q) : 0 <= clamp 0 255 x /\ clamp 0 255 x <= 255.
Proof.
  unfold clamp. split.
  - apply Q.min_glb; [ discriminate | apply Q.le_max_l ].
  - apply Q.le_min_l.
Qed.

Lemma round_half_even_bounds (q : Q) :
  0 <= q -> q <= 255 -> (0 <= round_half_even q <= 255)%Z.
Proof.
  intros Hlo Hhi. unfold round_half_even.
  assert (H0 : (0 <= Qfloor q)%Z).
  { change 0%Z with (Qfloor 0). apply Qfloor_resp_le, Hlo. }
  assert (H1 : (Qfloor q <= 255)%Z).
  { change 255%Z with (Qfloor 255). apply Qfloor_resp_le, Hhi. }
  assert (Hup : (Qfloor q = 255)%Z -> (q - inject_Z (Qfloor q) ?= 1 # 2) = Lt).
  { intros E. rewrite E. apply (proj1 (Qlt_alt _ _)).
    change (inject_Z 255) with 255. lra. }
  destruct (Z.eq_dec (Qfloor q) 255) as [E | NE].
  - rewrite (Hup E). lia.
  - destruct (q - inject_Z (Qfloor q) ?= 1 # 2); [ destruct (Z.even _) | | ]; lia.
Qed.

End Rounding.

(** ** The enhancer *)

Section EnhancerFacts.

Import Enhancer.

(** The two literals are the correctly rounded quotients 14/10 and 11/10. *)
Lemma literals_rounded :
  Number.lit_1_4 = Number.div (Number.of_int 14) (Number.of_int 10) /\
  Number.lit_1_1 = Number.div (Number.of_int 11) (Number.of_int 10).
Proof. split; vm_compute; reflexivity. Qed.

Lemma ToUint8Clamp_byte (x : spec_float) : is_byte (ToUint8Clamp x).
Proof.
  unfold is_byte.
  destruct x as [s | s | | s m e]; cbn [ToUint8Clamp]; try destruct s; try lia.
  all: apply round_half_even_bounds; apply clamp_bounds.
Qed.

Lemma in_all_bytes (v : Z) : is_byte v -> In v all_bytes.
Proof.
  intros [Hlo Hhi]. unfold all_bytes.
  apply in_map_iff. exists (Z.to_nat v). split; [ lia | ].
  apply in_seq. lia.
Qed.

(** On each of the 256 bytes the floating-point computation and the store
    into the byte array give the rational value of the formula, rounded. *)
Lemma enhance_channel_table :
  forallb (fun v => enhance_channel v =? enhance_spec v) all_bytes = true.
Proof. vm_compute. reflexivity. Qed.

Lemma enhance_channel_exact (v : Z) : is_byte v -> enhance_channel v = enhance_spec v.
Proof.
  intros Hv. apply Z.eqb_eq.
  exact (proj1 (forallb_forall _ _) enhance_channel_table v (in_all_bytes v Hv)).
Qed.

Lemma length_enhance_pixel (d : list Z) (i : nat) :
  length (enhance_pixel d i) = length d.
Proof. unfold enhance_pixel, set. by rewrite !length_insert. Qed.

(** The body of the loop rewrites the three colour bytes of its pixel, as
    far as they lie in the array, and nothing else. *)
Lemma get_lookup (d : list Z) (k : nat) (v : Z) : d !! k = Some v -> get d k = Number.of_int v.
Proof. unfold get. by intros ->. Qed.

Lemma lookup_enhance_pixel (d : list Z) (i j : nat) :
  enhance_pixel d i !! j =
    if decide (i <= j < i + 3)%nat then enhance_channel <$> d !! j else d !! j.
Proof.
  unfold enhance_pixel, set, enhance_channel.
  rewrite !list_lookup_insert, !length_insert.
  destruct (d !! j) as [v |] eqn:Hj.
  - pose proof (lookup_lt_Some _ _ _ Hj) as Hlt.
    repeat case_decide; destruct_and?; try lia; subst; rewrite ?(get_lookup _ _ _ Hj); done.
  - pose proof (proj1 (lookup_ge_None _ _) Hj) as Hge.
    repeat case_decide; destruct_and?; try lia; done.
Qed.

Lemma length_enhance_loop (fuel i : nat) (d : list Z) :
  length (snd (enhance_loop fuel i d)) = length d.
Proof.
  revert i d. induction fuel as [| fuel IH]; intros i d; cbn [enhance_loop]; [ done | ].
  case_match; [ | done ]. by rewrite IH, length_enhance_pixel.
Qed.

Lemma enhance_loop_exit (fuel i : nat) (d : list Z) :
  (length d <= i + 4 * fuel)%nat -> (length d <= fst (enhance_loop fuel i d))%nat.
Proof.
  revert i d. induction fuel as [| fuel IH]; intros i d Hf; cbn [enhance_loop fst]; [ lia | ].
  destruct (i <? length d)%nat eqn:Hlt; cbn [fst]; [ | apply Nat.ltb_ge in Hlt; lia ].
  etrans; [ | apply IH ]; rewrite length_enhance_pixel; lia.
Qed.

Lemma lookup_enhance_loop (fuel i : nat) (d : list Z) (j : nat) :
  (length d <= i + 4 * fuel)%nat ->
  snd (enhance_loop fuel i d) !! j =
    if decide (i <= j /\ (j - i) mod 4 <> 3)%nat then enhance_channel <$> d !! j else d !! j.
Proof.
  revert i d. induction fuel as [| fuel IH]; intros i d Hf; cbn [enhance_loop snd].
  - case_decide; [ | done ]. rewrite (proj2 (lookup_ge_None d j)); [ done | lia ].
  - destruct (i <? length d)%nat eqn:Hlt; cbn [snd].
    + rewrite IH by (rewrite length_enhance_pixel; lia).
      rewrite lookup_enhance_pixel.
      destruct (decide (j < i + 4)%nat) as [Hj | Hj].
      * destruct (decide (i <= j)%nat) as [Hi | Hi].
        -- rewrite (Nat.mod_small (j - i) 4) by lia.
           repeat case_decide; destruct_and?; try done; lia.
        -- repeat case_decide; destruct_and?; try done; lia.
      * replace (j - i)%nat with ((j - (i + 4)) + 1 * 4)%nat by lia.
        rewrite Nat.Div0.mod_add.
        repeat case_decide; destruct_and?; try done; try lia.
        all: exfalso; match goal with H : ~ (_ /\ _) |- _ => apply H; split; [ lia | done ] end.
    + apply Nat.ltb_ge in Hlt.
      case_decide; [ | done ]. rewrite (proj2 (lookup_ge_None d j)); [ done | lia ].
Qed.

Lemma channel_alpha (k : nat) : channel (4 * k + 3) = 3%nat.
Proof.
  unfold channel. rewrite Nat.add_comm, Nat.mul_comm, Nat.Div0.mod_add. done.
Qed.

(** What [enhanceImageForOCR] leaves at each index of the array. *)
Lemma lookup_enhanceImageForOCR (imageData : ImageData) (j : nat) :
  data (enhanceImageForOCR imageData) !! j =
    if decide (channel j <> 3%nat) then enhance_channel <$> data imageData !! j
    else data imageData !! j.
Proof.
  unfold enhanceImageForOCR, channel. cbn [data].
  rewrite lookup_enhance_loop by lia. rewrite Nat.sub_0_r.
  repeat case_decide; destruct_and?; try done.
  exfalso. match goal with H : ~ (_ /\ _) |- _ => apply H; split; [ lia | done ] end.
Qed.

(** C1.  On every pixel buffer of bytes the enhancer ends (the loop leaves
    through its test), keeps the length of the array, and replaces the
    byte [v] of every colour channel by
    [clamp(0, 255, ((v - 128) * 1.4 + 128) * 1.1)], stored as the nearest
    byte; every byte of the result lies in [0, 255]; and equal arrays give
    equal results. *)
Theorem enhance_transform (imageData : ImageData) :
  Forall is_byte (data imageData) ->
  let out := enhanceImageForOCR imageData in
  (length (data imageData)
     <= fst (enhance_loop (length (data imageData)) 0 (data imageData)))%nat /\
  length (data out) = length (data imageData) /\
  (forall i v, data imageData !! i = Some v -> channel i <> 3%nat ->
     data out !! i = Some (enhance_channel v) /\ enhance_channel v = enhance_spec v) /\
  Forall is_byte (data out) /\
  (forall other, data other = data imageData ->
     data (enhanceImageForOCR other) = data out).
Proof.
  intros Hbytes out. subst out. repeat split.
  - apply enhance_loop_exit. lia.
  - apply length_enhance_loop.
  - rewrite lookup_enhanceImageForOCR, H. by rewrite decide_True.
  - apply enhance_channel_exact. eapply Forall_lookup_1; eauto.
  - apply Forall_lookup_2. intros i x Hx.
    rewrite lookup_enhanceImageForOCR in Hx. case_decide.
    + destruct (data imageData !! i); simplify_eq /=. apply ToUint8Clamp_byte.
    + eapply Forall_lookup_1; eauto.
  - intros other Heq. unfold enhanceImageForOCR. cbn [data]. by rewrite Heq.
Qed.

Lemma enhance_transform_witness :
  Forall is_byte (data sample_image) /\
  data (enhanceImageForOCR sample_image) !! 4%nat = Some (enhance_channel 83) /\
  enhance_channel 83 = enhance_spec 83.
Proof.
  assert (Hbytes : Forall is_byte (data sample_image)).
  { unfold sample_image, is_byte. cbn [data]. repeat constructor; lia. }
  split; [ exact Hbytes | ].
  apply (proj1 (proj2 (proj2 (enhance_transform sample_image Hbytes))) 4%nat 83).
  - reflexivity.
  - vm_compute. lia.
Defined.

(** C2.  The three boundary cases of the transform on a channel value:
    0 gives 0, 128 gives 141 and 255 gives 255, also when the values are
    the colour channels of a pixel of a buffer. *)
Theorem enhance_boundary_cases :
  enhance_channel 0 = 0 /\ enhance_channel 128 = 141 /\ enhance_channel 255 = 255 /\
  data (enhanceImageForOCR {| width := 1; height := 1; data := [0; 128; 255; 255] |})
    = [0; 141; 255; 255].
Proof. vm_compute. repeat split; reflexivity. Qed.

(** C3.  Contrast about 128 followed by brightness is not brightness
    followed by contrast: on the byte 128 the two orders differ, as
    rationals (140.8 and 145.92) and as stored bytes (141 and 146). *)
Theorem contrast_then_brightness_order :
  exists v, is_byte v /\
    ~ (enhance_exact v == swapped_exact v)%Q /\
    enhance_channel v <> swapped_channel v.
Proof.
  exists 128. split; [ unfold is_byte; lia | ]. split.
  - vm_compute. discriminate.
  - vm_compute. discriminate.
Qed.

(** C4.  The enhancer keeps the width, the height and the number of
    bytes of the buffer (so its number of pixels), and the alpha byte of
    every pixel; the bytes it changes are those of the R, G, B channels. *)
Theorem enhance_preserves_alpha_and_size (imageData : ImageData) :
  let out := enhanceImageForOCR imageData in
  width out = width imageData /\
  height out = height imageData /\
  length (data out) = length (data imageData) /\
  (forall k, data out !! (4 * k + 3)%nat = data imageData !! (4 * k + 3)%nat) /\
  (forall i, data out !! i <> data imageData !! i -> channel i <> 3%nat).
Proof.
  intros out. subst out. repeat split.
  - apply length_enhance_loop.
  - intros k. rewrite lookup_enhanceImageForOCR.
    rewrite decide_False; [ done | ]. rewrite channel_alpha. auto.
  - intros i Hne Hc. apply Hne. rewrite lookup_enhanceImageForOCR.
    by rewrite decide_False by auto.
Qed.

End EnhancerFacts.

(** ** The camera module *)

Section CameraFacts.
Import Camera.

Ltac step_script :=
  cbv [mbind M_bind mret M_ret get modify assign assign_dom emit showError showSuccess
       throw suspend await try_catch detached].

Ltac case_state s :=
  let st := fresh "st" in
  destruct s as [st ? ? ? ? ?]; destruct st.

Ltac case_start env :=
  let gum := fresh "gum" in let lm := fresh "lm" in
  let caps := fresh "caps" in let ac := fresh "ac" in
  destruct env as [gum lm caps ac];
  destruct gum as [[] | ? | ]; destruct lm; destruct caps as [? | ?];
  destruct ac as [[] | ? | ].

Lemma live_after_app t1 t2 live :
  live_after (t1 ++ t2) live = live_after t2 (live_after t1 live).
Proof. apply fold_left_app. Qed.

Lemma within_one_head t live :
  within_one t live = (length live <=? 1)%nat && within_one t live.
Proof. destruct t; cbn; destruct (length live <=? 1)%nat; done. Qed.

Lemma within_one_app t1 t2 live :
  within_one (t1 ++ t2) live = within_one t1 live && within_one t2 (live_after t1 live).
Proof.
  revert live. induction t1 as [| e t1 IH]; intros live; cbn.
  - rewrite andb_true_r. apply within_one_head.
  - rewrite IH. by rewrite andb_assoc.
Qed.

Lemma within_one_prefix t live :
  within_one t live = true ->
  forall t1 t2, t = t1 ++ t2 -> (length (live_after t1 live) <= 1)%nat.
Proof.
  intros H t1 t2 ->. rewrite within_one_app in H.
  apply andb_prop in H as [_ H]. rewrite within_one_head in H.
  apply andb_prop in H as [H _]. by apply Nat.leb_le.
Qed.

Lemma live_after_stream_events t live :
  live_after (stream_events t) live = live_after t live.
Proof.
  revert live. induction t as [| e t IH]; intros live; [ done | ].
  destruct e; cbn; apply IH.
Qed.

Lemma within_one_stream_events t live :
  within_one (stream_events t) live = within_one t live.
Proof.
  revert live. induction t as [| e t IH]; intros live; [ done | ].
  destruct e; cbn; rewrite IH; try done; by rewrite <- within_one_head.
Qed.

Lemma accounted_intro {A} s (r : Completion A * State * list Event) evs st :
  stream_events r.2 = evs -> stream r.1.2 = st ->
  within_one evs (held s) = true /\ live_after evs (held s) = from_option (fun id => [id]) [] st ->
  accounted s r.
Proof.
  intros <- <- [H1 H2]. unfold accounted.
  rewrite within_one_stream_events in H1. rewrite live_after_stream_events in H2.
  split; [ done | ]. rewrite H2. unfold held. by destruct (stream r.1.2).
Qed.

Ltac account :=
  eapply accounted_intro;
  [ vm_compute; reflexivity
  | vm_compute; reflexivity
  | unfold held; cbn; repeat case_decide; done ].

Lemma stopCamera_accounted s : accounted s (stopCamera s).
Proof. case_state s; account. Qed.

Lemma startCamera_accounted env s : accounted s (startCamera env s).
Proof. case_state s; case_start env; account. Qed.

Lemma switchCamera_accounted env s : accounted s (switchCamera env s).
Proof. case_state s; destruct cameraActive0; case_start env; account. Qed.

Lemma retakePhoto_accounted env s : accounted s (retakePhoto env s).
Proof. case_state s; case_start env; account. Qed.

Lemma capturePhoto_accounted env s : accounted s (capturePhoto env s).
Proof.
  case_state s; destruct cameraActive0; destruct env as [[] [] ? ?];
    destruct dom0 as [? ? ? ? ? ? ? [] ? ? ? ? ?]; account.
Qed.

Lemma saveDocument_accounted env s : accounted s (saveDocument env s).
Proof.
  case_state s; destruct capturedImage0 as [[] |];
    destruct env as [now [[[] url err] | e |]]; account.
Qed.

Lemma check_unsupported navigator s :
  camera_supported navigator = false ->
  checkCameraAvailability navigator s =
    (Return tt, with_dom (dom_with_startBtn_disabled true (dom s)) s,
     [error_shown msg_unsupported]).
Proof. intros H. unfold checkCameraAvailability. rewrite H. reflexivity. Qed.

Lemma check_enumerated navigator md devices s :
  mediaDevices navigator = Some md -> has_getUserMedia md = true ->
  enumerateDevices_result md = Fulfilled devices ->
  checkCameraAvailability navigator s =
    if (video_inputs devices =? 0)%nat then
      (Return tt, with_dom (dom_with_startBtn_disabled true (dom s)) s,
       [error_shown msg_no_camera])
    else if ((1 <? video_inputs devices)%nat
             && bool_decide (is_Some (switchBtn_display (dom s))))%bool then
      (Return tt,
       with_dom (dom_with_switchBtn_display (Some display_inline_block) (dom s)) s, [])
    else (Return tt, s, []).
Proof.
  intros Hmd Hg He.
  unfold checkCameraAvailability, enumerateDevices, camera_supported, video_inputs.
  rewrite Hmd, Hg, He. step_script. cbn [negb].
  destruct (length _ =? 0)%nat; [ reflexivity | ].
  destruct (_ && _); reflexivity.
Qed.

Lemma check_not_enumerated navigator md s :
  mediaDevices navigator = Some md -> has_getUserMedia md = true ->
  (forall devices, enumerateDevices_result md <> Fulfilled devices) ->
  state_after (checkCameraAvailability navigator) s = s /\
  trace_of (checkCameraAvailability navigator) s = [] /\
  forall e, completion_of (checkCameraAvailability navigator) s <> Throw e.
Proof.
  intros Hmd Hg He.
  unfold state_after, trace_of, completion_of,
    checkCameraAvailability, enumerateDevices, camera_supported.
  rewrite Hmd, Hg. step_script. cbn [negb].
  destruct (enumerateDevices_result md) as [devices | e |]; [ by destruct (He devices) | | ];
    cbn; done.
Qed.

Lemma checkCameraAvailability_accounted navigator s :
  accounted s (checkCameraAvailability navigator s).
Proof.
  destruct navigator as [[[[] [devices | e |]] |]].
  all: try (case_state s; account; fail).
  rewrite (check_enumerated
             {| mediaDevices := Some {| has_getUserMedia := true;
                                        enumerateDevices_result := Fulfilled devices |} |}
             _ devices s eq_refl eq_refl eq_refl).
  destruct (_ =? _)%nat; [ case_state s; account | ].
  destruct (_ && _); case_state s; account.
Qed.

Lemma handler_accounted c s : accounted s (handler c s).
Proof.
  destruct c; cbn [handler];
    auto using checkCameraAvailability_accounted, startCamera_accounted,
      stopCamera_accounted, switchCamera_accounted, capturePhoto_accounted,
      retakePhoto_accounted, saveDocument_accounted.
Qed.

Lemma run_cons c calls s :
  run (c :: calls) s =
    let '(_, s1, t1) := handler c s in
    let '(c2, s2, t2) := run calls s1 in (c2, s2, t1 ++ t2).
Proof.
  cbn [run]. step_script. destruct (handler c s) as [[c1 s1] t1]. reflexivity.
Qed.

Lemma accounted_bind {A B} s (c1 : Completion A) s1 t1 (c2 : Completion B) s2 t2 :
  accounted s (c1, s1, t1) -> accounted s1 (c2, s2, t2) ->
  accounted s (c2, s2, t1 ++ t2).
Proof.
  unfold accounted; cbn [fst snd]. intros [H1 E1] [H2 E2].
  rewrite within_one_app, live_after_app, E1, H1, H2, E2. done.
Qed.

Lemma run_accounted calls s : accounted s (run calls s).
Proof.
  revert s. induction calls as [| c calls IH]; intros s.
  - unfold accounted, held. cbn. destruct (stream s); done.
  - rewrite run_cons. pose proof (handler_accounted c s) as Hc.
    destruct (handler c s) as [[c1 s1] t1]. specialize (IH s1).
    destruct (run calls s1) as [[c2 s2] t2]. eapply accounted_bind; eauto.
Qed.

Lemma consistent_intro s st act src :
  stream s = st -> cameraActive s = act -> video_srcObject (dom s) = src ->
  (st = None -> act = false /\ src = None) -> consistent s.
Proof. intros <- <- <-. done. Qed.

Ltac case_consistent s :=
  let st := fresh "st" in let d := fresh "d" in let Hc := fresh "Hc" in
  destruct s as [st ? ? ? d ?]; destruct d;
  unfold consistent at 1; cbn [stream cameraActive dom video_srcObject]; intros Hc;
  destruct st; [ clear Hc | destruct (Hc eq_refl) as [-> ->]; clear Hc ].

Ltac consist :=
  eapply consistent_intro;
  [ vm_compute; reflexivity | vm_compute; reflexivity | vm_compute; reflexivity | done ].

Lemma stopCamera_consistent s : consistent s -> consistent (state_after stopCamera s).
Proof. case_consistent s; consist. Qed.

Lemma startCamera_consistent env s :
  consistent s -> consistent (state_after (startCamera env) s).
Proof. case_consistent s; case_start env; consist. Qed.

Lemma switchCamera_consistent env s :
  consistent s -> consistent (state_after (switchCamera env) s).
Proof.
  case_consistent s; try destruct cameraActive0; case_start env; consist.
Qed.

Lemma retakePhoto_consistent env s :
  consistent s -> consistent (state_after (retakePhoto env) s).
Proof. case_consistent s; case_start env; consist. Qed.

Lemma capturePhoto_consistent env s :
  consistent s -> consistent (state_after (capturePhoto env) s).
Proof.
  case_consistent s; try destruct cameraActive0; destruct env as [[] [] ? ?];
    destruct titleInput_value0; consist.
Qed.

Lemma saveDocument_consistent env s :
  consistent s -> consistent (state_after (saveDocument env) s).
Proof.
  case_consistent s; destruct capturedImage0 as [[] |];
    destruct env as [now [[[] url err] | e |]]; consist.
Qed.

Lemma checkCameraAvailability_consistent navigator s :
  consistent s -> consistent (state_after (checkCameraAvailability navigator) s).
Proof.
  destruct navigator as [[[[] [devices | e |]] |]].
  all: try (case_consistent s; consist; fail).
  unfold state_after.
  rewrite (check_enumerated
             {| mediaDevices := Some {| has_getUserMedia := true;
                                        enumerateDevices_result := Fulfilled devices |} |}
             _ devices s eq_refl eq_refl eq_refl).
  destruct (_ =? _)%nat; [ case_consistent s; consist | ].
  destruct (_ && _); case_consistent s; consist.
Qed.

Lemma handler_consistent c s : consistent s -> consistent (state_after (handler c) s).
Proof.
  destruct c; cbn [handler];
    auto using checkCameraAvailability_consistent, startCamera_consistent,
      stopCamera_consistent, switchCamera_consistent, capturePhoto_consistent,
      retakePhoto_consistent, saveDocument_consistent.
Qed.

Lemma run_consistent calls s : consistent s -> consistent (state_after (run calls) s).
Proof.
  revert s. induction calls as [| c calls IH]; intros s Hs; [ done | ].
  unfold state_after. rewrite run_cons.
  pose proof (handler_consistent c s Hs) as Hc. unfold state_after in Hc.
  destruct (handler c s) as [[c1 s1] t1]. specialize (IH s1 Hc).
  unfold state_after in IH. by destruct (run calls s1) as [[c2 s2] t2].
Qed.

Lemma initial_consistent s : initial s -> consistent s.
Proof. intros (_ & Ha & _ & _ & Hv) _. done. Qed.

Lemma initial_held s : initial s -> held s = [].
Proof. intros (Hs & _). unfold held. by rewrite Hs. Qed.

Lemma startCamera_releases_first env s id :
  stream s = Some id ->
  exists c rest,
    trace_of (startCamera env) s = tracks_stopped id :: getUserMedia_requested c :: rest /\
    facingMode c = cameraFacing s.
Proof.
  destruct s as [st ? ? ? ? ?]; cbn [stream]; intros ->.
  case_start env; eexists _, _; (split; [ vm_compute; reflexivity | reflexivity ]).
Qed.

Lemma stopCamera_releases s id :
  stream s = Some id ->
  trace_of stopCamera s = [tracks_stopped id] /\
  stream (state_after stopCamera s) = None /\
  cameraActive (state_after stopCamera s) = false.
Proof.
  destruct s as [st ? ? ? ? ?]; cbn [stream]; intros ->. repeat split; vm_compute; reflexivity.
Qed.

Lemma stopCamera_idle s :
  consistent s -> stream s = None -> stopCamera s = (Return tt, s, []).
Proof.
  intros Hc Hs. destruct (Hc Hs) as [Ha Hv].
  destruct s as [st ? ? ? d ?]; destruct d; cbn in Hs, Ha, Hv; subst.
  vm_compute. reflexivity.
Qed.

(** C8.  Along every sequence of calls from the initial state (starts,
    switches, stops, captures, and the other handlers of the page), at
    every point of the trace at most one stream is open, and at the end
    the open stream is the one the module holds.  In the state reached,
    [startCamera] with a stream held first stops its tracks and only then
    asks for a new stream; [stopCamera] with a stream held stops its
    tracks and drops it, whether or not the camera is active; and
    [stopCamera] without a stream changes nothing. *)
Theorem at_most_one_stream_held (s0 : State) (calls : list Call) :
  initial s0 ->
  let s := state_after (run calls) s0 in
  at_most_one_stream (trace_of (run calls) s0) /\
  live_after (trace_of (run calls) s0) [] = held s /\
  (forall env id, stream s = Some id ->
     exists c rest,
       trace_of (startCamera env) s
         = tracks_stopped id :: getUserMedia_requested c :: rest /\
       facingMode c = cameraFacing s) /\
  (forall id, stream s = Some id ->
     trace_of stopCamera s = [tracks_stopped id] /\
     stream (state_after stopCamera s) = None /\
     cameraActive (state_after stopCamera s) = false) /\
  (stream s = None -> stopCamera s = (Return tt, s, [])).
Proof.
  intros Hinit s. subst s.
  destruct (run_accounted calls s0) as [Hw Hl]. rewrite (initial_held s0 Hinit) in Hw, Hl.
  split; [ | split; [ | split; [ | split ] ] ].
  - unfold at_most_one_stream. by apply within_one_prefix.
  - exact Hl.
  - intros env id. apply startCamera_releases_first.
  - intros id. apply stopCamera_releases.
  - apply stopCamera_idle, run_consistent, initial_consistent, Hinit.
Qed.


(** *** Capture and save without their preconditions *)

Lemma capturePhoto_inactive env s :
  cameraActive s = false ->
  capturePhoto env s = (Return tt, s, [error_shown msg_not_active]).
Proof. intros H. unfold capturePhoto. step_script. rewrite H. reflexivity. Qed.

Lemma capturePhoto_empty env s :
  cameraActive s = true -> (videoWidth env =? 0) || (videoHeight env =? 0) = true ->
  trace_of (capturePhoto env) s = [error_shown msg_capture_failed].
Proof.
  intros H Hz. unfold trace_of, capturePhoto, getImageData. step_script. rewrite H. cbn.
  rewrite Hz. reflexivity.
Qed.

Lemma capturePhoto_active env s :
  cameraActive s = true -> (videoWidth env =? 0) || (videoHeight env =? 0) = false ->
  let enhancedData :=
    Enhancer.enhanceImageForOCR
      {| Enhancer.width := videoWidth env; Enhancer.height := videoHeight env;
         Enhancer.data := frame env |} in
  let s1 := state_after (capturePhoto env) s in
  stream s1 = None /\ cameraActive s1 = false /\ cameraFacing s1 = cameraFacing s /\
  capturedImage s1 = Some (toDataURL env enhancedData) /\
  canvas (dom s1) = enhancedData /\
  viewState s1 = Some PREVIEW.
Proof.
  intros H Hz. unfold state_after, capturePhoto, getImageData, stopCamera.
  step_script. rewrite H. cbn. rewrite Hz. cbn.
  destruct (stream s) eqn:Hs; cbn.
  all: destruct (titleInput_value (dom s)); cbn; rewrite ?Hs; repeat split; reflexivity.
Qed.

Lemma saveDocument_nothing env s :
  image_held s = false ->
  saveDocument env s = (Return tt, s, [error_shown msg_nothing_to_save]).
Proof. intros H. unfold saveDocument. step_script. rewrite H. reflexivity. Qed.

(** C5.  While the camera is not active a capture only reports that the
    camera is not active: it returns with the state as it was, so with
    the same view, the same canvas and the same captured image, if any. *)
Theorem capture_requires_active_camera (env : CaptureEnv) (s : State) :
  cameraActive s = false ->
  capturePhoto env s = (Return tt, s, [error_shown msg_not_active]) /\
  viewState (state_after (capturePhoto env) s) = viewState s /\
  canvas (dom (state_after (capturePhoto env) s)) = canvas (dom s) /\
  capturedImage (state_after (capturePhoto env) s) = capturedImage s.
Proof.
  intros H. unfold state_after. rewrite (capturePhoto_inactive env s H). done.
Qed.

Lemma capture_requires_active_camera_witness :
  cameraActive sample_state = false /\
  capturePhoto sample_capture sample_state
    = (Return tt, sample_state, [error_shown msg_not_active]).
Proof.
  split; [ reflexivity | ].
  apply (capture_requires_active_camera sample_capture sample_state). reflexivity.
Defined.

(** C6.  Without a captured image ([capturedImage] is [null], or the
    empty string) saving only reports that there is nothing to save: no
    request goes to the save endpoint and the state is as it was. *)
Theorem save_requires_captured_image (env : SaveEnv) (s : State) :
  capturedImage s = None \/ capturedImage s = Some [] ->
  saveDocument env s = (Return tt, s, [error_shown msg_nothing_to_save]) /\
  requests (trace_of (saveDocument env) s) = [].
Proof.
  intros H.
  assert (Hh : image_held s = false) by (unfold image_held; by destruct H as [-> | ->]).
  unfold trace_of. rewrite (saveDocument_nothing env s Hh). done.
Qed.

Lemma save_requires_captured_image_witness :
  (capturedImage sample_state = None \/ capturedImage sample_state = Some []) /\
  requests (trace_of (saveDocument sample_save) sample_state) = [].
Proof.
  split; [ left; reflexivity | ].
  apply (save_requires_captured_image sample_save sample_state). left. reflexivity.
Defined.

(** *** Retake *)

Lemma retakePhoto_effects env s :
  let s2 := state_after (retakePhoto env) s in
  viewState s2 = Some LIVE /\ capturedImage s2 = None /\ cameraFacing s2 = cameraFacing s.
Proof.
  destruct s as [st ? ? ? d ?]; destruct d; destruct st; case_start env;
    repeat split; vm_compute; reflexivity.
Qed.

Lemma retakePhoto_restarts env s :
  stream s = None ->
  exists c rest,
    trace_of (retakePhoto env) s = getUserMedia_requested c :: rest /\
    facingMode c = cameraFacing s.
Proof.
  destruct s as [st ? ? ? ? ?]; cbn [stream]; intros ->.
  case_start env; eexists _, _; (split; [ vm_compute; reflexivity | reflexivity ]).
Qed.

Lemma capture_succeeded env s :
  (forall m, error_shown m ∉ trace_of (capturePhoto env) s) ->
  cameraActive s = true /\ (videoWidth env =? 0) || (videoHeight env =? 0) = false.
Proof.
  intros H. destruct (cameraActive s) eqn:Ha.
  - split; [ done | ]. destruct (_ || _) eqn:Hz; [ | done ].
    destruct (H msg_capture_failed). rewrite (capturePhoto_empty env s Ha Hz).
    apply list_elem_of_singleton. done.
  - destruct (H msg_not_active). unfold trace_of. rewrite (capturePhoto_inactive env s Ha).
    apply list_elem_of_singleton. done.
Qed.

(** C7.  After a capture that reported no error, the still preview is
    shown and an image is held.  A retake then brings the camera view
    back and discards the image, so that saving without a new capture
    reports that there is nothing to save and sends no request; and the
    retake starts the camera again, asking for the facing in use at the
    capture. *)
Theorem retake_after_capture
    (cenv : CaptureEnv) (env : StartEnv) (senv : SaveEnv) (s : State) :
  (forall m, error_shown m ∉ trace_of (capturePhoto cenv) s) ->
  let s1 := state_after (capturePhoto cenv) s in
  let s2 := state_after (retakePhoto env) s1 in
  (viewState s1 = Some PREVIEW /\ is_Some (capturedImage s1)) /\
  viewState s2 = Some LIVE /\
  capturedImage s2 = None /\
  saveDocument senv s2 = (Return tt, s2, [error_shown msg_nothing_to_save]) /\
  requests (trace_of (saveDocument senv) s2) = [] /\
  (exists c rest,
      trace_of (retakePhoto env) s1 = getUserMedia_requested c :: rest /\
      facingMode c = cameraFacing s).
Proof.
  intros Hok s1 s2.
  destruct (capture_succeeded cenv s Hok) as [Ha Hz].
  destruct (capturePhoto_active cenv s Ha Hz) as (Hs & _ & Hf & Hi & _ & Hv).
  fold s1 in Hs, Hf, Hi, Hv.
  destruct (retakePhoto_effects env s1) as (Hv2 & Hi2 & _). fold s2 in Hv2, Hi2.
  assert (Hh : image_held s2 = false) by (unfold image_held; by rewrite Hi2).
  pose proof (saveDocument_nothing senv s2 Hh) as Hsave.
  assert (Hreq : requests (trace_of (saveDocument senv) s2) = [])
    by (unfold trace_of; by rewrite Hsave).
  split; [ split; [ done | rewrite Hi; by eexists ] | ].
  split; [ done | ]. split; [ done | ]. split; [ done | ]. split; [ done | ].
  rewrite <- Hf. by apply retakePhoto_restarts.
Qed.

(** *** The availability check *)

Lemma no_capability_iff navigator :
  no_capability navigator <-> camera_supported navigator = false.
Proof.
  unfold no_capability, camera_supported.
  destruct (mediaDevices navigator) as [md |]; split.
  - intros [H | (md' & Heq & Hf)]; [ discriminate | ]. by injection Heq as <-.
  - intros H. right. by exists md.
  - done.
  - intros _. by left.
Qed.

Lemma enumerated_supported navigator n :
  enumerated navigator n -> camera_supported navigator = true.
Proof. unfold camera_supported. intros (md & devices & -> & -> & _). done. Qed.

Lemma enumerated_fulfilled navigator md devices n :
  mediaDevices navigator = Some md -> has_getUserMedia md = true ->
  enumerateDevices_result md = Fulfilled devices ->
  enumerated navigator n <-> n = video_inputs devices.
Proof.
  intros Hmd Hg Hen. unfold enumerated. split.
  - intros (md' & devices' & Hm & _ & He & ->).
    rewrite Hmd in Hm. injection Hm as <-. rewrite Hen in He. by injection He as <-.
  - intros ->. by exists md, devices.
Qed.

Lemma enumerated_settled navigator md n :
  mediaDevices navigator = Some md -> enumerated navigator n ->
  exists devices, enumerateDevices_result md = Fulfilled devices.
Proof.
  intros Hmd (md' & devices & Hm & _ & He & _).
  rewrite Hmd in Hm. injection Hm as <-. by exists devices.
Qed.

(** C9.  The availability check never throws.  It reports the camera
    as unusable (an error is shown and the start button is disabled)
    exactly when the platform has no camera-access capability or the
    enumeration yields no video-input device; otherwise it leaves the
    start button as it was.  On a page whose switch button is not yet
    shown, it shows the button exactly when the enumeration yields two or
    more video-input devices. *)
Theorem availability_report (navigator : Navigator) (s : State) :
  let s' := state_after (checkCameraAvailability navigator) s in
  let t := trace_of (checkCameraAvailability navigator) s in
  let unusable := no_capability navigator \/ enumerated navigator 0 in
  (forall e, completion_of (checkCameraAvailability navigator) s <> Throw e) /\
  ((exists m, error_shown m ∈ t) <-> unusable) /\
  (unusable -> startBtn_disabled (dom s') = true) /\
  (~ unusable -> startBtn_disabled (dom s') = startBtn_disabled (dom s)) /\
  (forall d, switchBtn_display (dom s) = Some d -> d <> display_inline_block ->
     (switchBtn_display (dom s') = Some display_inline_block
      <-> exists n, enumerated navigator n /\ (2 <= n)%nat)).
Proof.
  intros s' t unusable. subst s' t unusable.
  unfold state_after, trace_of, completion_of.
  destruct (camera_supported navigator) eqn:Hsup.
  - assert (Hcap : ~ no_capability navigator).
    { rewrite no_capability_iff. congruence. }
    unfold camera_supported in Hsup.
    destruct (mediaDevices navigator) as [md |] eqn:Hmd; [ | done ].
    destruct (enumerateDevices_result md) as [devices | e |] eqn:Hen.
    + pose proof (enumerated_fulfilled navigator md devices) as Hn.
      specialize (fun n => Hn n Hmd Hsup Hen).
      rewrite (check_enumerated navigator md devices s Hmd Hsup Hen).
      destruct (video_inputs devices) as [| [| n]] eqn:Hv; cbn [Nat.eqb Nat.ltb Nat.leb andb].
      * cbn. split; [ done | ]. split; [ | split; [ done | split ] ].
        -- split; [ intros _; right; by apply Hn | intros _; eexists; by left ].
        -- intros H; destruct H; right; by apply Hn.
        -- intros d Hd Hne. rewrite Hd. split; [ by intros [= ->] | ].
           intros (n & Hen' & Hle). apply Hn in Hen'. lia.
      * cbn. split; [ done | ]. split; [ | split; [ | split; [ done | ] ] ].
        -- split; [ intros [m Hm]; by apply elem_of_nil in Hm | ].
           intros [H | H]; [ done | ]. apply Hn in H. done.
        -- intros [H | H]; [ done | ]. apply Hn in H. done.
        -- intros d Hd Hne. rewrite Hd. split; [ by intros [= ->] | ].
           intros (n & Hen' & Hle). apply Hn in Hen'. lia.
      * destruct (bool_decide (is_Some (switchBtn_display (dom s)))) eqn:Hsw; cbn.
        -- split; [ done | ]. split; [ | split; [ | split; [ done | ] ] ].
           ++ split; [ intros [m Hm]; by apply elem_of_nil in Hm | ].
              intros [H | H]; [ done | ]. apply Hn in H. done.
           ++ intros [H | H]; [ done | ]. apply Hn in H. done.
           ++ intros d Hd Hne. split; [ | done ].
              intros _. exists (S (S n)). split; [ by apply Hn | lia ].
        -- split; [ done | ]. split; [ | split; [ | split; [ done | ] ] ].
           ++ split; [ intros [m Hm]; by apply elem_of_nil in Hm | ].
              intros [H | H]; [ done | ]. apply Hn in H. done.
           ++ intros [H | H]; [ done | ]. apply Hn in H. done.
           ++ intros d Hd Hne. rewrite Hd in Hsw.
              apply bool_decide_eq_false in Hsw. destruct Hsw. by eexists.
    + assert (Hne : forall devices, enumerateDevices_result md <> Fulfilled devices)
        by (intros devices; congruence).
      assert (Hnot : forall n, ~ enumerated navigator n).
      { intros n H. destruct (enumerated_settled navigator md n Hmd H) as [devices Hd].
        by destruct (Hne devices). }
      destruct (check_not_enumerated navigator md s Hmd Hsup Hne) as (Hs & Ht & Hc).
      unfold state_after, trace_of, completion_of in Hs, Ht, Hc. rewrite Hs, Ht.
      split; [ exact Hc | ]. split; [ | split; [ | split; [ done | ] ] ].
      * split; [ intros [m Hm]; by apply elem_of_nil in Hm | ].
        intros [H | H]; [ done | by apply Hnot in H ].
      * intros [H | H]; [ done | by apply Hnot in H ].
      * intros d Hd Hne'. rewrite Hd. split; [ by intros [= ->] | ].
        intros (n & H & _). by apply Hnot in H.
    + assert (Hne : forall devices, enumerateDevices_result md <> Fulfilled devices)
        by (intros devices; congruence).
      assert (Hnot : forall n, ~ enumerated navigator n).
      { intros n H. destruct (enumerated_settled navigator md n Hmd H) as [devices Hd].
        by destruct (Hne devices). }
      destruct (check_not_enumerated navigator md s Hmd Hsup Hne) as (Hs & Ht & Hc).
      unfold state_after, trace_of, completion_of in Hs, Ht, Hc. rewrite Hs, Ht.
      split; [ exact Hc | ]. split; [ | split; [ | split; [ done | ] ] ].
      * split; [ intros [m Hm]; by apply elem_of_nil in Hm | ].
        intros [H | H]; [ done | by apply Hnot in H ].
      * intros [H | H]; [ done | by apply Hnot in H ].
      * intros d Hd Hne'. rewrite Hd. split; [ by intros [= ->] | ].
        intros (n & H & _). by apply Hnot in H.
  - assert (Hcap : no_capability navigator) by by apply no_capability_iff.
    rewrite (check_unsupported navigator s Hsup). cbn.
    split; [ done | ]. split; [ | split; [ done | split ] ].
    + split; [ intros _; by left | intros _; eexists; by left ].
    + intros H; destruct H; by left.
    + intros d Hd Hne. rewrite Hd. split; [ by intros [= ->] | ].
      intros (n & H & _). apply enumerated_supported in H. congruence.
Qed.

Lemma retake_after_capture_witness :
  (forall m, error_shown m ∉ trace_of (capturePhoto sample_capture) sample_active) /\
  viewState (state_after (retakePhoto sample_start) sample_captured) = Some LIVE /\
  capturedImage (state_after (retakePhoto sample_start) sample_captured) = None.
Proof.
  assert (Hok : forall m, error_shown m ∉ trace_of (capturePhoto sample_capture) sample_active).
  { assert (E : trace_of (capturePhoto sample_capture) sample_active
                = [tracks_stopped 0%nat; titleInput_focused]) by (vm_compute; reflexivity).
    intros m Hm. rewrite E in Hm.
    repeat (apply elem_of_cons in Hm as [Hm | Hm]; [ discriminate Hm | ]).
    by apply elem_of_nil in Hm. }
  split; [ exact Hok | ].
  pose proof (retake_after_capture sample_capture sample_start sample_save sample_active Hok)
    as (_ & Hv & Hi & _).
  split; [ exact Hv | exact Hi ].
Defined.

Lemma at_most_one_stream_held_witness :
  initial sample_state /\
  at_most_one_stream (trace_of (run sample_calls) sample_state).
Proof.
  assert (Hinit : initial sample_state) by (repeat split; reflexivity).
  split; [ exact Hinit | ].
  exact (proj1 (at_most_one_stream_held sample_state sample_calls Hinit)).
Defined.

(** *** The request to the save endpoint *)

Lemma saveDocument_request env s :
  image_held s = true ->
  requests (trace_of (saveDocument env) s) =
    [ {| image := default [] (capturedImage s);
         title := or_else (entered_title s) (default_title_prefix ++ now_locale env);
         folder_id := if truthy (selected_folder s) then Some (selected_folder s) else None |} ].
Proof.
  intros H. unfold trace_of, saveDocument. step_script. rewrite H. cbn [negb].
  destruct (fetch_result env) as [[[] ? ?] | ? |]; reflexivity.
Qed.

Lemma truthy_nonempty (v : jsstring) : truthy v = true <-> v <> [].
Proof. destruct v; cbn; split; done. Qed.

(** C10.  When an image is held, saving makes one request to the save
    endpoint, with that image.  Its title is never empty: it is the
    trimmed text of the title input, or, when that is empty, the default
    title, the word "Скан" followed by the date.  Its folder is never the
    empty string: it is the selected folder, or [null] when the selection
    is empty. *)
Theorem save_request_fields (env : SaveEnv) (s : State) :
  image_held s = true ->
  exists body,
    requests (trace_of (saveDocument env) s) = [body] /\
    capturedImage s = Some (image body) /\
    title body <> [] /\
    folder_id body <> Some [] /\
    (entered_title s = [] -> title body = default_title_prefix ++ now_locale env) /\
    (entered_title s <> [] -> title body = entered_title s) /\
    (selected_folder s = [] -> folder_id body = None) /\
    (selected_folder s <> [] -> folder_id body = Some (selected_folder s)).
Proof.
  intros H. eexists. split; [ by apply saveDocument_request | ]. cbn [image title folder_id].
  split; [ | split; [ | split; [ | split; [ | split; [ | split ] ] ] ] ].
  - unfold image_held in H. by destruct (capturedImage s).
  - unfold or_else. destruct (truthy (entered_title s)) eqn:Ht.
    + by apply truthy_nonempty.
    + done.
  - destruct (truthy (selected_folder s)) eqn:Hf; [ | done ].
    apply truthy_nonempty in Hf. congruence.
  - intros E. unfold or_else. by rewrite E.
  - intros E. unfold or_else. apply truthy_nonempty in E. by rewrite E.
  - intros E. by rewrite E.
  - intros E. apply truthy_nonempty in E. by rewrite E.
Qed.

Lemma save_request_fields_witness :
  image_held sample_captured = true /\
  exists body,
    requests (trace_of (saveDocument sample_save) sample_captured) = [body] /\
    title body = default_title_prefix ++ now_locale sample_save /\
    folder_id body = None.
Proof.
  assert (H : image_held sample_captured = true) by (vm_compute; reflexivity).
  split; [ exact H | ].
  destruct (save_request_fields sample_save sample_captured H)
    as (body & Hreq & _ & _ & _ & Ht & _ & Hf & _).
  exists body. split; [ exact Hreq | ].
  split; [ apply Ht | apply Hf ]; vm_compute; reflexivity.
Defined.

End CameraFacts.

(** * Further properties *)

(** ** The enhancer on bytes and on rows *)

Section EnhancerMore.
Import Enhancer.

Lemma byte_table (P : Z -> bool) :
  forallb P all_bytes = true -> forall v, is_byte v -> P v = true.
Proof. intros H v Hv. exact (proj1 (forallb_forall _ _) H v (in_all_bytes v Hv)). Qed.

Lemma enhance_step_table :
  forallb (fun v => (255 <=? v) || (enhance_channel v <=? enhance_channel (v + 1)))
          all_bytes = true.
Proof. vm_compute. reflexivity. Qed.

Lemma enhance_mid_step_table :
  forallb (fun v => negb ((36 <=? v) && (v <? 202))
                    || (enhance_channel v + 1 <=? enhance_channel (v + 1)))
          all_bytes = true.
Proof. vm_compute. reflexivity. Qed.

Lemma enhance_saturation_table :
  forallb (fun v => Bool.eqb (enhance_channel v =? 0) (v <=? 36)
                    && Bool.eqb (enhance_channel v =? 255) (202 <=? v))
          all_bytes = true.
Proof. vm_compute. reflexivity. Qed.

(** X1.  The transform of a channel is monotone: a brighter byte never
    comes out darker than a darker one. *)
Theorem enhance_channel_monotone (v w : Z) :
  is_byte v -> is_byte w -> v <= w -> enhance_channel v <= enhance_channel w.
Proof.
  intros Hv Hw Hle.
  replace w with (v + Z.of_nat (Z.to_nat (w - v))) in * by lia.
  induction (Z.to_nat (w - v)) as [| n IH].
  - replace (v + Z.of_nat 0) with v by lia. lia.
  - assert (Hn : is_byte (v + Z.of_nat n)) by (unfold is_byte in *; lia).
    specialize (IH Hn ltac:(lia)).
    pose proof (byte_table _ enhance_step_table _ Hn) as Hs. cbn beta in Hs.
    apply orb_prop in Hs as [Hs | Hs].
    + apply Z.leb_le in Hs. unfold is_byte in *. lia.
    + apply Z.leb_le in Hs.
      replace (v + Z.of_nat (S n)) with (v + Z.of_nat n + 1) by lia. lia.
Qed.

Lemma enhance_channel_monotone_witness :
  (is_byte 40 /\ is_byte 41 /\ 40 <= 41) /\ enhance_channel 40 <= enhance_channel 41.
Proof.
  assert (H : is_byte 40 /\ is_byte 41 /\ 40 <= 41) by (unfold is_byte; lia).
  split; [ exact H | ].
  apply (enhance_channel_monotone 40 41); apply H.
Defined.

(** X2.  The transform saturates outside the bytes 37 to 201: a byte
    comes out as 0 exactly when it is at most 36, and as 255 exactly when
    it is at least 202. *)
Theorem enhance_channel_saturation (v : Z) :
  is_byte v ->
  (enhance_channel v = 0 <-> v <= 36) /\ (enhance_channel v = 255 <-> 202 <= v).
Proof.
  intros Hv.
  pose proof (byte_table _ enhance_saturation_table _ Hv) as H. cbn beta in H.
  apply andb_prop in H as [H0 H1].
  apply Bool.eqb_prop in H0, H1. split.
  - rewrite <- Z.eqb_eq, <- Z.leb_le, H0. done.
  - rewrite <- Z.eqb_eq, <- Z.leb_le, H1. done.
Qed.

Lemma enhance_channel_saturation_witness :
  is_byte 36 /\ enhance_channel 36 = 0.
Proof.
  assert (H : is_byte 36) by (unfold is_byte; lia).
  split; [ exact H | ].
  apply (proj1 (enhance_channel_saturation 36 H)). lia.
Defined.

(** X3.  Between the bytes 36 and 202 the transform never reduces a
    difference: two bytes that differ by [d] come out at least [d] apart,
    so distinct bytes of this range stay distinct. *)
Theorem enhance_channel_expands (v w : Z) :
  36 <= v -> v <= w -> w <= 202 ->
  w - v <= enhance_channel w - enhance_channel v.
Proof.
  intros Hv Hle Hw.
  replace w with (v + Z.of_nat (Z.to_nat (w - v))) in * by lia.
  induction (Z.to_nat (w - v)) as [| n IH].
  - replace (v + Z.of_nat 0) with v by lia. lia.
  - specialize (IH ltac:(lia) ltac:(lia)).
    assert (Hn : is_byte (v + Z.of_nat n)) by (unfold is_byte; lia).
    pose proof (byte_table _ enhance_mid_step_table _ Hn) as Hs. cbn beta in Hs.
    apply orb_prop in Hs as [Hs | Hs].
    + apply negb_true_iff, andb_false_iff in Hs as [Hs | Hs];
        [ apply Z.leb_gt in Hs | apply Z.ltb_ge in Hs ]; lia.
    + apply Z.leb_le in Hs.
      replace (v + Z.of_nat (S n)) with (v + Z.of_nat n + 1) by lia. lia.
Qed.

Lemma enhance_channel_expands_witness :
  (36 <= 100 /\ 100 <= 110 /\ 110 <= 202) /\
  110 - 100 <= enhance_channel 110 - enhance_channel 100.
Proof.
  assert (H : 36 <= 100 /\ 100 <= 110 /\ 110 <= 202) by lia.
  split; [ exact H | ].
  apply (enhance_channel_expands 100 110); apply H.
Defined.

Lemma channel_shift (n j : nat) :
  (n mod 4 = 0)%nat -> (n <= j)%nat -> channel (j - n) = channel j.
Proof.
  intros Hn Hj. unfold channel.
  replace j with ((j - n) + (n / 4) * 4)%nat at 2.
  - by rewrite Nat.Div0.mod_add.
  - pose proof (Nat.div_mod_eq n 4). lia.
Qed.

(** X4.  The enhancer works pixel by pixel: when the first part of an
    array is a whole number of pixels, enhancing the array is enhancing its
    two parts on their own, whatever the dimensions. *)
Theorem enhance_append (i1 i2 i : ImageData) :
  (length (data i1) mod 4 = 0)%nat ->
  data i = data i1 ++ data i2 ->
  data (enhanceImageForOCR i) =
    data (enhanceImageForOCR i1) ++ data (enhanceImageForOCR i2).
Proof.
  intros Hn Hd. apply list_eq. intros j.
  assert (Hl : length (data (enhanceImageForOCR i1)) = length (data i1))
    by apply length_enhance_loop.
  rewrite lookup_enhanceImageForOCR, Hd.
  destruct (decide (j < length (data i1))%nat) as [Hj | Hj].
  - rewrite (lookup_app_l (data (enhanceImageForOCR i1))) by lia.
    rewrite lookup_enhanceImageForOCR. by rewrite (lookup_app_l (data i1)) by lia.
  - rewrite (lookup_app_r (data (enhanceImageForOCR i1))) by lia.
    rewrite lookup_enhanceImageForOCR, Hl.
    rewrite (lookup_app_r (data i1)) by lia.
    rewrite (channel_shift (length (data i1)) j) by lia. done.
Qed.

Lemma enhance_append_witness :
  (length (data sample_image) mod 4 = 0)%nat /\
  data (enhanceImageForOCR {| width := 1; height := 4;
                              data := data sample_image ++ data sample_image |}) =
    data (enhanceImageForOCR sample_image) ++ data (enhanceImageForOCR sample_image).
Proof.
  assert (H : (length (data sample_image) mod 4 = 0)%nat) by reflexivity.
  split; [ exact H | ].
  apply (enhance_append sample_image sample_image); [ exact H | reflexivity ].
Defined.

End EnhancerMore.

(** ** Starting, switching and stopping the camera *)

Section CameraMore.
Import Camera.

Ltac step_script :=
  cbv [mbind M_bind mret M_ret get modify assign assign_dom emit showError showSuccess
       throw suspend await try_catch detached].

Ltac case_start env :=
  let gum := fresh "gum" in let lm := fresh "lm" in
  let caps := fresh "caps" in let ac := fresh "ac" in
  destruct env as [gum lm caps ac];
  destruct gum as [[] | ? | ]; destruct lm; destruct caps as [? | ?];
  destruct ac as [[] | ? | ].

Ltac case_fields s :=
  let st := fresh "st" in let d := fresh "d" in
  destruct s as [st ? ? ? d ?]; destruct d; destruct st.

Lemma startCamera_settings env s st :
  applyConstraints_requested st ∈ trace_of (startCamera env) s ->
  exists capabilities,
    getCapabilities_result env = inr capabilities /\ st = settings_for capabilities.
Proof.
  case_fields s; case_start env;
    cbv [trace_of startCamera stopCamera getUserMedia getCapabilities updateUI];
    step_script; cbn; intros H.
  all: repeat (apply elem_of_cons in H as [H | H]; [ try discriminate H | ]).
  all: try (by apply elem_of_nil in H).
  all: injection H as ->; eexists; split; reflexivity.
Qed.

Lemma focus_setting_cases (capabilities : Capabilities) :
  match focus_setting capabilities with
  | Some focus_continuous =>
      exists modes, cap_focusMode capabilities = Some modes /\ focus_continuous ∈ modes
  | Some focus_single_shot =>
      exists modes, cap_focusMode capabilities = Some modes /\
                    (focus_continuous ∉ modes) /\ focus_single_shot ∈ modes
  | Some _ => False
  | None =>
      forall modes, cap_focusMode capabilities = Some modes ->
                    (focus_continuous ∉ modes) /\ (focus_single_shot ∉ modes)
  end.
Proof.
  unfold focus_setting. destruct (cap_focusMode capabilities) as [modes |]; [ | done ].
  repeat case_bool_decide; [ by exists modes | by exists modes | by intros ? [= <-] ].
Qed.

(** X5.  Stopping is idempotent: after [stopCamera] no stream is held,
    the camera is not active and the video has no source, and a second
    [stopCamera] stops nothing and changes nothing. *)
Theorem stopCamera_idempotent (s : State) :
  let s1 := state_after stopCamera s in
  stream s1 = None /\ cameraActive s1 = false /\ video_srcObject (dom s1) = None /\
  stopCamera s1 = (Return tt, s1, []).
Proof. case_fields s; repeat split; vm_compute; reflexivity. Qed.

Lemma startCamera_rejected_errors env s e :
  getUserMedia_result env = Rejected e ->
  errors (trace_of (startCamera env) s) = [msg_access +:+ access_detail e].
Proof.
  destruct env as [gum lm caps ac]; cbn [getUserMedia_result]; intros ->.
  case_fields s; vm_compute; reflexivity.
Qed.

(** X6.  When access to the camera is refused, [startCamera] returns
    after showing one message, the common text followed by the text for
    the error; from a consistent state it then holds no stream, after
    stopping the one it held, the camera is not active, and the start
    button is enabled again. *)
Theorem startCamera_rejected (env : StartEnv) (s : State) (e : Exn) :
  getUserMedia_result env = Rejected e -> consistent s ->
  let s' := state_after (startCamera env) s in
  completion_of (startCamera env) s = Return tt /\
  errors (trace_of (startCamera env) s) = [msg_access +:+ access_detail e] /\
  stream_events (trace_of (startCamera env) s)
    = (if stream s is Some id then [tracks_stopped id] else []) /\
  stream s' = None /\ cameraActive s' = false /\ video_srcObject (dom s') = None /\
  startBtn_disabled (dom s') = false /\
  cameraFacing s' = cameraFacing s /\ capturedImage s' = capturedImage s.
Proof.
  intros Hr Hc s'. subst s'.
  split; [ | split; [ by apply startCamera_rejected_errors | ] ].
  all: destruct env as [gum lm caps ac]; cbn [getUserMedia_result] in Hr; subst gum.
  all: revert Hc; case_fields s; unfold consistent; cbn [stream cameraActive dom video_srcObject];
    intros Hc; try (destruct (Hc eq_refl) as [-> ->]); repeat split; vm_compute; reflexivity.
Qed.

Lemma startCamera_rejected_witness :
  (getUserMedia_result sample_denied
     = Rejected {| exn_name := "NotAllowedError"; exn_message := "Permission denied" |} /\
   consistent sample_active) /\
  stream (state_after (startCamera sample_denied) sample_active) = None /\
  errors (trace_of (startCamera sample_denied) sample_active) = [msg_access +:+ msg_not_allowed].
Proof.
  assert (H : getUserMedia_result sample_denied
              = Rejected {| exn_name := "NotAllowedError"; exn_message := "Permission denied" |}
              /\ consistent sample_active).
  { split; [ reflexivity | ]. intros H. vm_compute in H. discriminate H. }
  split; [ exact H | ].
  destruct (startCamera_rejected sample_denied sample_active _ (proj1 H) (proj2 H))
    as (_ & He & _ & Hs & _).
  split; [ exact Hs | exact He ].
Defined.

(** X7.  The three named errors of access (refused, no camera, camera in
    use) give three different messages, whatever the states. *)
Theorem startCamera_errors_distinct (env1 env2 : StartEnv) (s1 s2 : State) (e1 e2 : Exn) :
  getUserMedia_result env1 = Rejected e1 -> getUserMedia_result env2 = Rejected e2 ->
  exn_name e1 ∈ ["NotAllowedError"; "NotFoundError"; "NotReadableError"]%string ->
  exn_name e2 ∈ ["NotAllowedError"; "NotFoundError"; "NotReadableError"]%string ->
  exn_name e1 <> exn_name e2 ->
  errors (trace_of (startCamera env1) s1) <> errors (trace_of (startCamera env2) s2).
Proof.
  intros H1 H2 Hn1 Hn2 Hne.
  rewrite (startCamera_rejected_errors env1 s1 e1 H1), (startCamera_rejected_errors env2 s2 e2 H2).
  unfold access_detail. intros Heq.
  repeat (apply elem_of_cons in Hn1 as [Hn1 | Hn1]);
    repeat (apply elem_of_cons in Hn2 as [Hn2 | Hn2]);
    try (by apply elem_of_nil in Hn1); try (by apply elem_of_nil in Hn2);
    try congruence; rewrite Hn1, Hn2 in Heq; vm_compute in Heq; discriminate Heq.
Qed.

Lemma startCamera_errors_distinct_witness :
  (exn_name {| exn_name := "NotAllowedError"; exn_message := "Permission denied" |}
     <> exn_name {| exn_name := "NotReadableError"; exn_message := "Device in use" |}) /\
  errors (trace_of (startCamera sample_denied) sample_state)
    <> errors (trace_of (startCamera sample_busy) sample_state).
Proof.
  assert (H : exn_name {| exn_name := "NotAllowedError"; exn_message := "Permission denied" |}
              <> exn_name {| exn_name := "NotReadableError"; exn_message := "Device in use" |})
    by (cbn; discriminate).
  split; [ exact H | ].
  apply (startCamera_errors_distinct sample_denied sample_busy sample_state sample_state _ _
           eq_refl eq_refl); [ | | exact H ].
  - apply elem_of_cons. by left.
  - apply elem_of_cons. right. apply elem_of_cons. right. apply elem_of_cons. by left.
Defined.


(** X8.  When the stream opens, its metadata loads and the capabilities
    are read, [startCamera] succeeds whether [applyConstraints] accepts or
    refuses the settings: it shows no error, holds the new stream, which
    the video plays, the camera is active, and the camera view and the
    capture controls are shown in place of the start button.  A held
    stream is stopped before the new one is requested. *)
Theorem startCamera_started (env : StartEnv) (s : State) (capabilities : Capabilities) :
  getUserMedia_result env = Fulfilled tt -> loadedmetadata env = true ->
  getCapabilities_result env = inr capabilities ->
  applyConstraints_result env <> Unsettled ->
  let s' := state_after (startCamera env) s in
  completion_of (startCamera env) s = Return tt /\
  trace_of (startCamera env) s =
    (if stream s is Some id then [tracks_stopped id] else []) ++
    [getUserMedia_requested (constraints_for (cameraFacing s));
     stream_opened (next_stream s); video_play;
     applyConstraints_requested (settings_for capabilities)] /\
  stream s' = Some (next_stream s) /\
  video_srcObject (dom s') = Some (next_stream s) /\
  cameraActive s' = true /\
  cameraView_display (dom s') = display_block /\
  captureControls_display (dom s') = display_flex /\
  startBtn_display (dom s') = display_none.
Proof.
  intros Hg Hl Hc Ha s'. subst s'.
  destruct env as [gum lm caps ac]; cbn in Hg, Hl, Hc, Ha; subst.
  destruct ac as [[] | ? |]; [ | | done ]; case_fields s; repeat split; vm_compute; reflexivity.
Qed.

Lemma startCamera_started_witness :
  (getUserMedia_result sample_start = Fulfilled tt /\ loadedmetadata sample_start = true /\
   applyConstraints_result sample_start <> Unsettled) /\
  cameraActive (state_after (startCamera sample_start) sample_state) = true /\
  stream (state_after (startCamera sample_start) sample_state) = Some 0%nat.
Proof.
  assert (H : getUserMedia_result sample_start = Fulfilled tt /\
              loadedmetadata sample_start = true /\
              applyConstraints_result sample_start <> Unsettled) by (repeat split; discriminate).
  split; [ exact H | ].
  destruct (startCamera_started sample_start sample_state _
              (proj1 H) (proj1 (proj2 H)) eq_refl (proj2 (proj2 H)))
    as (_ & _ & Hs & _ & Ha & _).
  split; [ exact Ha | exact Hs ].
Defined.

(** X9.  The settings [startCamera] gives to [applyConstraints] never ask
    for more than 1920 by 1080, ask for a size only when the device
    reports a maximum that is not zero, and ask for continuous focus when
    the device offers it, else for single-shot focus when it offers that,
    and for no other focus mode. *)
Theorem negotiated_settings_bounded (env : StartEnv) (s : State) (st : Settings) :
  applyConstraints_requested st ∈ trace_of (startCamera env) s ->
  exists capabilities,
    getCapabilities_result env = inr capabilities /\
    (forall w, set_width st = Some w ->
       w <= 1920 /\ exists m, cap_width_max capabilities = Some m /\ m <> 0 /\ w <= m) /\
    (forall h, set_height st = Some h ->
       h <= 1080 /\ exists m, cap_height_max capabilities = Some m /\ m <> 0 /\ h <= m) /\
    match set_focusMode st with
    | Some focus_continuous =>
        exists modes, cap_focusMode capabilities = Some modes /\ focus_continuous ∈ modes
    | Some focus_single_shot =>
        exists modes, cap_focusMode capabilities = Some modes /\
                      (focus_continuous ∉ modes) /\ focus_single_shot ∈ modes
    | Some _ => False
    | None =>
        forall modes, cap_focusMode capabilities = Some modes ->
                      (focus_continuous ∉ modes) /\ (focus_single_shot ∉ modes)
    end.
Proof.
  intros H. destruct (startCamera_settings env s st H) as (capabilities & Hc & ->).
  exists capabilities. split; [ exact Hc | ]. cbn [settings_for set_width set_height set_focusMode].
  assert (Hsize : forall max cap w, size_setting max cap = Some w ->
                    w <= cap /\ exists m, max = Some m /\ m <> 0 /\ w <= m).
  { intros max cap w. unfold size_setting. destruct max as [m |]; [ | done ].
    destruct (m =? 0) eqn:Hm; [ done | ]. intros [= <-]. apply Z.eqb_neq in Hm.
    split; [ lia | ]. exists m. repeat split; [ done | lia ]. }
  split; [ apply Hsize | ]. split; [ apply Hsize | ].
  apply focus_setting_cases.
Qed.

Lemma negotiated_settings_bounded_witness :
  let st := settings_for {| cap_focusMode := Some [focus_manual; focus_single_shot];
                            cap_width_max := Some 4000; cap_height_max := Some 720 |} in
  applyConstraints_requested st ∈ trace_of (startCamera sample_start) sample_state /\
  (forall w, set_width st = Some w -> w <= 1920) /\
  (forall h, set_height st = Some h -> h <= 1080).
Proof.
  intros st.
  assert (H : applyConstraints_requested st ∈ trace_of (startCamera sample_start) sample_state).
  { vm_compute. do 3 apply list_elem_of_further. apply list_elem_of_here. }
  split; [ exact H | ].
  destruct (negotiated_settings_bounded sample_start sample_state st H) as (c & _ & Hw & Hh & _).
  split; [ intros w E; exact (proj1 (Hw w E)) | intros h E; exact (proj1 (Hh h E)) ].
Defined.

(** X10.  When reading the capabilities fails after the stream has
    opened, [startCamera] shows the error and enables the start button
    again, the camera is not active, but the stream it opened stays held
    and open; the next [stopCamera] releases it. *)
Theorem startCamera_fails_holding (env : StartEnv) (s : State) (e : Exn) :
  getUserMedia_result env = Fulfilled tt -> loadedmetadata env = true ->
  getCapabilities_result env = inl e -> consistent s ->
  let s' := state_after (startCamera env) s in
  completion_of (startCamera env) s = Return tt /\
  errors (trace_of (startCamera env) s) = [msg_access +:+ access_detail e] /\
  stream_events (trace_of (startCamera env) s) =
    (if stream s is Some id then [tracks_stopped id] else []) ++ [stream_opened (next_stream s)] /\
  stream s' = Some (next_stream s) /\ cameraActive s' = false /\
  startBtn_disabled (dom s') = false /\
  trace_of stopCamera s' = [tracks_stopped (next_stream s)].
Proof.
  intros Hg Hl Hc Hs s'. subst s'.
  destruct env as [gum lm caps ac]; cbn in Hg, Hl, Hc; subst.
  revert Hs; case_fields s; unfold consistent; cbn [stream cameraActive dom video_srcObject];
    intros Hs; try (destruct (Hs eq_refl) as [-> ->]); repeat split; vm_compute; reflexivity.
Qed.

Lemma startCamera_fails_holding_witness :
  (getUserMedia_result sample_no_capabilities = Fulfilled tt /\
   loadedmetadata sample_no_capabilities = true /\ consistent sample_state) /\
  stream (state_after (startCamera sample_no_capabilities) sample_state) = Some 0%nat /\
  cameraActive (state_after (startCamera sample_no_capabilities) sample_state) = false.
Proof.
  assert (H : getUserMedia_result sample_no_capabilities = Fulfilled tt /\
              loadedmetadata sample_no_capabilities = true /\ consistent sample_state)
    by (repeat split; reflexivity).
  split; [ exact H | ].
  destruct (startCamera_fails_holding sample_no_capabilities sample_state TypeError
              (proj1 H) (proj1 (proj2 H)) eq_refl (proj2 (proj2 H)))
    as (_ & _ & _ & Hs & Ha & _).
  split; [ exact Hs | exact Ha ].
Defined.

(** X11.  [startCamera] never throws.  When it stays suspended (the
    request for the camera, the metadata of the stream or the application
    of the settings never completes), it has shown no error and the start
    button stays disabled; from a consistent state the camera is then not
    active. *)
Theorem startCamera_suspended (env : StartEnv) (s : State) :
  consistent s ->
  let s' := state_after (startCamera env) s in
  (forall e, completion_of (startCamera env) s <> Throw e) /\
  (completion_of (startCamera env) s = Pending <->
     getUserMedia_result env = Unsettled \/
     (getUserMedia_result env = Fulfilled tt /\
      (loadedmetadata env = false \/
       (exists capabilities, getCapabilities_result env = inr capabilities) /\
       applyConstraints_result env = Unsettled))) /\
  (completion_of (startCamera env) s = Pending ->
     errors (trace_of (startCamera env) s) = [] /\
     startBtn_disabled (dom s') = true /\ cameraActive s' = false).
Proof.
  intros Hs s'. subst s'.
  revert Hs; case_fields s; unfold consistent; cbn [stream cameraActive dom video_srcObject];
    intros Hs; try (destruct (Hs eq_refl) as [-> ->]); clear Hs.
  all: case_start env; cbn [getUserMedia_result loadedmetadata getCapabilities_result
                            applyConstraints_result].
  all: split; [ intros ?; vm_compute; discriminate | ].
  all: split; [ split | ].
  all: try (vm_compute; discriminate).
  all: try (intros _; repeat split; vm_compute; reflexivity).
  all: try (intros _; by left).
  all: try (intros _; right; split; [ done | by left ]).
  all: try (intros _; right; split; [ done | right; split; [ by eexists | done ] ]).
  all: intros [H | [H0 [H | [[? H] H']]]];
    first [ discriminate H0 | discriminate H | discriminate H' ].
Qed.

Lemma startCamera_suspended_witness :
  consistent sample_state /\
  completion_of (startCamera sample_no_metadata) sample_state = Pending /\
  startBtn_disabled (dom (state_after (startCamera sample_no_metadata) sample_state)) = true.
Proof.
  assert (H : consistent sample_state) by (split; reflexivity).
  split; [ exact H | ].
  destruct (startCamera_suspended sample_no_metadata sample_state H) as (_ & Hp & Hd).
  assert (Hpend : completion_of (startCamera sample_no_metadata) sample_state = Pending).
  { apply Hp. right. split; [ reflexivity | left; reflexivity ]. }
  split; [ exact Hpend | ]. apply (Hd Hpend).
Defined.


(** X12.  [switchCamera] always changes the facing to the other one.
    While the camera is not active it does nothing else.  While it is
    active with a stream held and the new stream opens, the held stream is
    stopped once, then one stream is requested with the new facing and
    opened, and no other stream is stopped or opened. *)
Theorem switchCamera_restarts (env : StartEnv) (s : State) :
  cameraFacing (state_after (switchCamera env) s) = toggle (cameraFacing s) /\
  (cameraActive s = false ->
     switchCamera env s = (Return tt, with_cameraFacing (toggle (cameraFacing s)) s, [])) /\
  (forall id, cameraActive s = true -> stream s = Some id ->
     getUserMedia_result env = Fulfilled tt ->
     stream_events (trace_of (switchCamera env) s)
       = [tracks_stopped id; stream_opened (next_stream s)] /\
     exists rest,
       trace_of (switchCamera env) s
         = tracks_stopped id
           :: getUserMedia_requested (constraints_for (toggle (cameraFacing s)))
           :: stream_opened (next_stream s) :: rest).
Proof.
  destruct s as [st act fac img d n]; destruct d.
  split; [ | split ].
  - destruct st, act, fac; case_start env; vm_compute; reflexivity.
  - cbn [cameraActive]. intros ->. destruct fac; reflexivity.
  - cbn [cameraActive stream getUserMedia_result]. intros id -> -> Hg.
    destruct env as [gum lm caps ac]; cbn in Hg; subst gum.
    destruct fac, lm, caps as [? | ?], ac as [[] | ? |];
      (split; [ vm_compute; reflexivity | eexists; vm_compute; reflexivity ]).
Qed.

Lemma switchCamera_facing_only (env : StartEnv) (s : State) :
  cameraFacing (state_after (switchCamera env) s) = toggle (cameraFacing s).
Proof.
  destruct s as [st act fac img d n]; destruct d.
  destruct st, act, fac; case_start env; vm_compute; reflexivity.
Qed.

Lemma handler_facing (c : Call) (s : State) :
  cameraFacing (state_after (handler c) s)
    = if is_switch c then toggle (cameraFacing s) else cameraFacing s.
Proof.
  destruct c as [navigator | env | | env | env | env | env]; cbn [handler is_switch].
  - destruct navigator as [[[[] [devices | e |]] |]].
    all: try (case_fields s; vm_compute; reflexivity).
    unfold state_after.
    rewrite (check_enumerated
               {| mediaDevices := Some {| has_getUserMedia := true;
                                          enumerateDevices_result := Fulfilled devices |} |}
               _ devices s eq_refl eq_refl eq_refl).
    destruct (_ =? _)%nat; [ reflexivity | ]. destruct (_ && _); reflexivity.
  - case_fields s; case_start env; vm_compute; reflexivity.
  - case_fields s; vm_compute; reflexivity.
  - apply (switchCamera_facing_only env s).
  - case_fields s; destruct cameraActive0; destruct env as [[] [] ? ?];
      destruct titleInput_value0; vm_compute; reflexivity.
  - case_fields s; case_start env; vm_compute; reflexivity.
  - case_fields s; destruct capturedImage0 as [[] |];
      destruct env as [now [[[] url err] | e |]]; vm_compute; reflexivity.
Qed.

Lemma iter_toggle_swap (n : nat) (f : Facing) :
  Nat.iter n toggle (toggle f) = toggle (Nat.iter n toggle f).
Proof. induction n as [| n IH]; [ done | by rewrite !Nat.iter_succ, IH ]. Qed.

(** X13.  Only [switchCamera] changes the facing: after any run the
    facing is the one at its start, changed once for each call of
    [switchCamera] in it, so it survives starts, stops, captures, retakes
    and saves. *)
Theorem facing_after_run (calls : list Call) (s : State) :
  cameraFacing (state_after (run calls) s) = Nat.iter (switches calls) toggle (cameraFacing s).
Proof.
  revert s. induction calls as [| c calls IH]; intros s; [ done | ].
  unfold state_after. rewrite run_cons.
  pose proof (handler_facing c s) as Hc. unfold state_after in Hc.
  destruct (handler c s) as [[c1 s1] t1]. specialize (IH s1). unfold state_after in IH.
  destruct (run calls s1) as [[c2 s2] t2]. cbn [fst snd] in *.
  rewrite IH, Hc. unfold switches. cbn [List.filter].
  destruct (is_switch c); cbn [length]; [ | done ].
  rewrite Nat.iter_succ. apply iter_toggle_swap.
Qed.


Lemma active_ok_intro s act st src cv cc :
  cameraActive s = act -> stream s = st -> video_srcObject (dom s) = src ->
  cameraView_display (dom s) = cv -> captureControls_display (dom s) = cc ->
  (act = true -> st = src /\ st <> None /\ cv = display_block /\ cc = display_flex) ->
  active_ok s.
Proof. intros <- <- <- <- <-. done. Qed.

Ltac case_active s :=
  let st := fresh "st" in let d := fresh "d" in let act := fresh "act" in
  let Ha := fresh "Ha" in let Hn := fresh "Hn" in
  destruct s as [st act ? ? d ?]; destruct d;
  unfold active_ok at 1;
  cbn [stream cameraActive dom video_srcObject cameraView_display captureControls_display];
  intros Ha; destruct act;
  [ destruct (Ha eq_refl) as (<- & Hn & -> & ->); clear Ha;
    destruct st; [ clear Hn | by destruct Hn ]
  | clear Ha; destruct st ].

Ltac active :=
  eapply active_ok_intro;
  [ vm_compute; reflexivity | vm_compute; reflexivity | vm_compute; reflexivity
  | vm_compute; reflexivity | vm_compute; reflexivity
  | first [ discriminate | by intros _; repeat split ] ].

Lemma handler_active_ok (c : Call) (s : State) :
  active_ok s -> active_ok (state_after (handler c) s).
Proof.
  destruct c as [navigator | env | | env | env | env | env]; cbn [handler].
  - destruct navigator as [[[[] [devices | e |]] |]].
    all: try (case_active s; active; fail).
    unfold state_after.
    rewrite (check_enumerated
               {| mediaDevices := Some {| has_getUserMedia := true;
                                          enumerateDevices_result := Fulfilled devices |} |}
               _ devices s eq_refl eq_refl eq_refl).
    destruct (_ =? _)%nat; [ case_active s; active | ].
    destruct (_ && _); case_active s; active.
  - case_active s; case_start env; active.
  - case_active s; active.
  - case_active s; case_start env; active.
  - case_active s; destruct env as [[] [] ? ?]; destruct titleInput_value0; active.
  - case_active s; case_start env; active.
  - case_active s; destruct capturedImage0 as [[] |];
      destruct env as [now [[[] url err] | e |]]; active.
Qed.

Lemma run_active_ok (calls : list Call) (s : State) :
  active_ok s -> active_ok (state_after (run calls) s).
Proof.
  revert s. induction calls as [| c calls IH]; intros s Hs; [ done | ].
  unfold state_after. rewrite run_cons.
  pose proof (handler_active_ok c s Hs) as Hc. unfold state_after in Hc.
  destruct (handler c s) as [[c1 s1] t1]. specialize (IH s1 Hc).
  unfold state_after in IH. by destruct (run calls s1) as [[c2 s2] t2].
Qed.

(** X14.  In every state a run reaches from the initial state, an active
    camera holds a stream, the video plays that stream, and the camera
    view is shown with its controls; so while the still preview is shown
    the camera is not active. *)
Theorem active_camera_invariant (s0 : State) (calls : list Call) :
  initial s0 ->
  let s := state_after (run calls) s0 in
  (cameraActive s = true ->
     (exists id, stream s = Some id /\ video_srcObject (dom s) = Some id) /\
     cameraView_display (dom s) = display_block /\
     captureControls_display (dom s) = display_flex) /\
  (viewState s = Some PREVIEW -> cameraActive s = false).
Proof.
  intros (_ & Ha0 & _) s.
  assert (H0 : active_ok s0).
  { unfold active_ok. rewrite Ha0. discriminate. }
  pose proof (run_active_ok calls s0 H0) as H. fold s in H.
  split.
  - intros Ha. destruct (H Ha) as (Hs & Hn & Hv & Hc).
    split; [ | done ]. destruct (stream s) as [id |]; [ | done ]. by exists id.
  - intros Hp. destruct (cameraActive s) eqn:Ha; [ | done ].
    destruct (H Ha) as (_ & _ & Hv & _). unfold viewState in Hp. rewrite Hv in Hp.
    destruct (previewView_display (dom s)); discriminate Hp.
Qed.

Lemma active_camera_invariant_witness :
  initial sample_state /\
  (viewState (state_after (run sample_calls) sample_state) = Some PREVIEW ->
   cameraActive (state_after (run sample_calls) sample_state) = false).
Proof.
  assert (H : initial sample_state) by (repeat split; reflexivity).
  split; [ exact H | ].
  exact (proj2 (active_camera_invariant sample_state sample_calls H)).
Defined.


(** X15.  A capture with the camera active and a frame of non-zero width
    and height shows no error.  The canvas takes the dimensions of the
    video and holds the enhanced frame, the captured image and the preview
    are the encoding of that canvas, the still preview is shown, and the
    camera is released: a held stream is stopped, and afterwards no stream
    is held and the camera is not active.  The facing is kept. *)
Theorem capture_success (env : CaptureEnv) (s : State) :
  cameraActive s = true -> videoWidth env <> 0 -> videoHeight env <> 0 ->
  let enhanced :=
    Enhancer.enhanceImageForOCR
      {| Enhancer.width := videoWidth env; Enhancer.height := videoHeight env;
         Enhancer.data := frame env |} in
  let s' := state_after (capturePhoto env) s in
  completion_of (capturePhoto env) s = Return tt /\
  errors (trace_of (capturePhoto env) s) = [] /\
  stream_events (trace_of (capturePhoto env) s)
    = (if stream s is Some id then [tracks_stopped id] else []) /\
  canvas (dom s') = enhanced /\
  Enhancer.width (canvas (dom s')) = videoWidth env /\
  Enhancer.height (canvas (dom s')) = videoHeight env /\
  capturedImage s' = Some (toDataURL env enhanced) /\
  preview_src (dom s') = Some (toDataURL env enhanced) /\
  viewState s' = Some PREVIEW /\
  stream s' = None /\ cameraActive s' = false /\ video_srcObject (dom s') = None /\
  cameraFacing s' = cameraFacing s.
Proof.
  intros H Hw Hh enhanced s'. subst enhanced s'.
  assert (Hz : (videoWidth env =? 0) || (videoHeight env =? 0) = false).
  { apply orb_false_iff. split; by apply Z.eqb_neq. }
  unfold completion_of, trace_of, state_after, capturePhoto, getImageData, stopCamera.
  step_script. rewrite H. cbn. rewrite Hz. cbn.
  destruct (stream s) eqn:Hs; cbn.
  all: destruct (titleInput_value (dom s)); cbn; rewrite ?Hs; repeat split; reflexivity.
Qed.

Lemma capture_success_witness :
  (cameraActive sample_active = true /\ videoWidth sample_capture <> 0 /\
   videoHeight sample_capture <> 0) /\
  capturedImage (state_after (capturePhoto sample_capture) sample_active)
    = Some [0; 141; 255; 255]%N /\
  stream (state_after (capturePhoto sample_capture) sample_active) = None.
Proof.
  assert (H : cameraActive sample_active = true /\ videoWidth sample_capture <> 0 /\
              videoHeight sample_capture <> 0) by (repeat split; discriminate).
  split; [ exact H | ].
  destruct (capture_success sample_capture sample_active
              (proj1 H) (proj1 (proj2 H)) (proj2 (proj2 H)))
    as (_ & _ & _ & _ & _ & _ & Hi & _ & _ & Hs & _).
  split; [ rewrite Hi; vm_compute; reflexivity | exact Hs ].
Defined.

(** X16.  A capture with the camera active but a video of zero width or
    height only resizes the canvas and reports that the capture failed:
    the camera stays active with its stream, the view is the same, and the
    captured image, if any, is kept. *)
Theorem capture_empty_frame (env : CaptureEnv) (s : State) :
  cameraActive s = true -> videoWidth env = 0 \/ videoHeight env = 0 ->
  capturePhoto env s =
    (Return tt,
     with_dom (dom_with_canvas
                 {| Enhancer.width := videoWidth env; Enhancer.height := videoHeight env;
                    Enhancer.data := frame env |} (dom s)) s,
     [error_shown msg_capture_failed]).
Proof.
  intros H Hz.
  assert (Hb : (videoWidth env =? 0) || (videoHeight env =? 0) = true).
  { apply orb_true_iff. destruct Hz as [Hz | Hz]; [ left | right ]; by apply Z.eqb_eq. }
  unfold capturePhoto, getImageData. step_script. rewrite H. cbn. rewrite Hb.
  destruct s as [? ? ? ? d ?]; destruct d. reflexivity.
Qed.

Lemma capture_empty_frame_witness :
  (cameraActive sample_active = true /\
   (videoWidth sample_empty_capture = 0 \/ videoHeight sample_empty_capture = 0)) /\
  cameraActive (state_after (capturePhoto sample_empty_capture) sample_active) = true /\
  trace_of (capturePhoto sample_empty_capture) sample_active
    = [error_shown msg_capture_failed].
Proof.
  assert (H : cameraActive sample_active = true /\
              (videoWidth sample_empty_capture = 0 \/ videoHeight sample_empty_capture = 0))
    by (split; [ reflexivity | left; reflexivity ]).
  split; [ exact H | ].
  unfold state_after, trace_of.
  rewrite (capture_empty_frame sample_empty_capture sample_active (proj1 H) (proj2 H)).
  split; reflexivity.
Defined.

Lemma saveDocument_state env s :
  image_held s = true ->
  state_after (saveDocument env) s =
    with_dom (dom_with_saveBtn_disabled
                (match fetch_result env with
                 | Fulfilled r => success r
                 | Rejected _ => false
                 | Unsettled => true
                 end) (dom s)) s.
Proof.
  intros H. unfold state_after, saveDocument. step_script. rewrite H. cbn [negb].
  destruct s as [? ? ? ? d ?]; destruct d.
  destruct (fetch_result env) as [[[] ? ?] | ? |]; reflexivity.
Qed.

(** X17.  Saving with an image held changes nothing in the state but the
    save button.  When the endpoint reports success, the success message
    is shown, one navigation to the returned address is scheduled after
    1000 ms and the button stays disabled.  When it reports a failure, its
    error text, or a default text when it gives none, is shown; when the
    request or the parsing fails, the transport message is shown; in both
    cases nothing is scheduled and the button is enabled again. *)
Theorem save_outcomes (env : SaveEnv) (s : State) :
  image_held s = true ->
  let s' := state_after (saveDocument env) s in
  let t := trace_of (saveDocument env) s in
  (exists b, s' = with_dom (dom_with_saveBtn_disabled b (dom s)) s) /\
  match fetch_result env with
  | Fulfilled r =>
      completion_of (saveDocument env) s = Return tt /\
      if success r then
        saveBtn_disabled (dom s') = true /\ errors t = [] /\
        success_shown msg_saved ∈ t /\ navigations t = [(1000, redirect_url r)]
      else
        saveBtn_disabled (dom s') = false /\ navigations t = [] /\
        errors t = [match error r with
                    | Some e => if String.eqb e "" then msg_save_failed else e
                    | None => msg_save_failed
                    end]
  | Rejected _ =>
      completion_of (saveDocument env) s = Return tt /\
      saveBtn_disabled (dom s') = false /\ navigations t = [] /\ errors t = [msg_transport]
  | Unsettled =>
      completion_of (saveDocument env) s = Pending /\
      saveBtn_disabled (dom s') = true /\ navigations t = [] /\ errors t = []
  end.
Proof.
  intros H s' t. subst s' t. split.
  - eexists. by apply saveDocument_state.
  - rewrite (saveDocument_state env s H).
    unfold completion_of, trace_of, saveDocument. step_script. rewrite H. cbn [negb].
    destruct (fetch_result env) as [[[] ? ?] | ? |]; cbn; repeat split; try reflexivity.
    apply list_elem_of_further, list_elem_of_here.
Qed.

Lemma save_outcomes_witness :
  image_held sample_captured = true /\
  navigations (trace_of (saveDocument sample_save) sample_captured)
    = [(1000, Some [47]%N)].
Proof.
  assert (H : image_held sample_captured = true) by (vm_compute; reflexivity).
  split; [ exact H | ].
  pose proof (save_outcomes sample_save sample_captured H) as (_ & Hm).
  cbn [fetch_result sample_save success redirect_url] in Hm.
  destruct Hm as (_ & _ & _ & _ & Hn). exact Hn.
Defined.

(** X18.  The captured image survives every outcome of a save, so a save
    can be tried again without a new capture: the second request carries
    the same image and folder, and the same title when a title was entered
    or the date text is the same. *)
Theorem save_retry (env1 env2 : SaveEnv) (s : State) :
  image_held s = true ->
  let s1 := state_after (saveDocument env1) s in
  capturedImage s1 = capturedImage s /\ image_held s1 = true /\
  (forall body1 body2,
     requests (trace_of (saveDocument env1) s) = [body1] ->
     requests (trace_of (saveDocument env2) s1) = [body2] ->
     image body2 = image body1 /\ folder_id body2 = folder_id body1 /\
     (entered_title s <> [] \/ now_locale env1 = now_locale env2 ->
      title body2 = title body1)) /\
  exists body2, requests (trace_of (saveDocument env2) s1) = [body2].
Proof.
  intros H s1. subst s1. rewrite (saveDocument_state env1 s H).
  set (s1 := with_dom _ s).
  assert (Hi : capturedImage s1 = capturedImage s) by reflexivity.
  assert (Hh : image_held s1 = true) by (unfold image_held; by rewrite Hi).
  assert (Ht : entered_title s1 = entered_title s) by reflexivity.
  assert (Hf : selected_folder s1 = selected_folder s) by reflexivity.
  split; [ done | ]. split; [ done | ].
  rewrite (saveDocument_request env1 s H), (saveDocument_request env2 s1 Hh), Hi, Ht, Hf.
  split; [ | by eexists ].
  intros body1 body2 [= <-] [= <-]. cbn [image folder_id title].
  split; [ done | ]. split; [ done | ].
  intros [Hne | Hnow]; [ | by rewrite Hnow ].
  unfold or_else. apply truthy_nonempty in Hne. by rewrite Hne.
Qed.

Lemma save_retry_witness :
  image_held sample_captured = true /\
  image_held (state_after (saveDocument sample_save_rejected) sample_captured) = true.
Proof.
  assert (H : image_held sample_captured = true) by (vm_compute; reflexivity).
  split; [ exact H | ].
  exact (proj1 (proj2 (save_retry sample_save_rejected sample_save sample_captured H))).
Defined.


Lemma startCamera_active env s capabilities :
  getUserMedia_result env = Fulfilled tt -> loadedmetadata env = true ->
  getCapabilities_result env = inr capabilities ->
  applyConstraints_result env <> Unsettled ->
  cameraActive (state_after (startCamera env) s) = true.
Proof.
  intros Hg Hl Hc Ha.
  destruct env as [gum lm caps ac]; cbn in Hg, Hl, Hc, Ha; subst.
  destruct ac as [[] | ? |]; [ | | done ]; case_fields s; vm_compute; reflexivity.
Qed.

Lemma saveDocument_navigates env s r :
  image_held s = true -> fetch_result env = Fulfilled r -> success r = true ->
  navigations (trace_of (saveDocument env) s) = [(1000, redirect_url r)] /\
  errors (trace_of (saveDocument env) s) = [].
Proof.
  intros H Hf Hs. unfold trace_of, saveDocument. step_script. rewrite H, Hf. cbn [negb].
  rewrite Hs. split; reflexivity.
Qed.

(** X24.  From start to save: when the camera starts, a frame of non-zero
    size is captured, its encoding is not empty and the endpoint accepts
    the save, the one request carries the encoding of the enhanced frame,
    one navigation to the returned address is scheduled after 1000 ms, no
    error is shown by the save, and meanwhile the still preview stays
    shown with no stream held. *)
Theorem pipeline_end_to_end
    (start : StartEnv) (capture : CaptureEnv) (save : SaveEnv) (s : State)
    (capabilities : Capabilities) (r : SaveResult) :
  getUserMedia_result start = Fulfilled tt -> loadedmetadata start = true ->
  getCapabilities_result start = inr capabilities ->
  applyConstraints_result start <> Unsettled ->
  videoWidth capture <> 0 -> videoHeight capture <> 0 ->
  let enhanced :=
    Enhancer.enhanceImageForOCR
      {| Enhancer.width := videoWidth capture; Enhancer.height := videoHeight capture;
         Enhancer.data := frame capture |} in
  toDataURL capture enhanced <> [] ->
  fetch_result save = Fulfilled r -> success r = true ->
  let s1 := state_after (startCamera start) s in
  let s2 := state_after (capturePhoto capture) s1 in
  let s3 := state_after (saveDocument save) s2 in
  (exists body, requests (trace_of (saveDocument save) s2) = [body] /\
                image body = toDataURL capture enhanced) /\
  navigations (trace_of (saveDocument save) s2) = [(1000, redirect_url r)] /\
  errors (trace_of (saveDocument save) s2) = [] /\
  viewState s2 = Some PREVIEW /\ viewState s3 = Some PREVIEW /\
  stream s2 = None /\ stream s3 = None.
Proof.
  intros Hg Hl Hc Ha Hw Hh enhanced Hurl Hf Hs s1 s2 s3.
  assert (Hact : cameraActive s1 = true) by by eapply startCamera_active.
  assert (Hz : (videoWidth capture =? 0) || (videoHeight capture =? 0) = false).
  { apply orb_false_iff. split; by apply Z.eqb_neq. }
  destruct (capturePhoto_active capture s1 Hact Hz) as (Hst & _ & _ & Hi & _ & Hv).
  fold s2 enhanced in Hst, Hi, Hv.
  assert (Hheld : image_held s2 = true).
  { unfold image_held. rewrite Hi. by apply truthy_nonempty. }
  assert (H3 : s3 = with_dom (dom_with_saveBtn_disabled true (dom s2)) s2).
  { unfold s3. rewrite (saveDocument_state save s2 Hheld), Hf, Hs. done. }
  destruct (saveDocument_navigates save s2 r Hheld Hf Hs) as [Hn He].
  split.
  - eexists. split; [ by apply saveDocument_request | ]. cbn [image]. by rewrite Hi.
  - split; [ done | ]. split; [ done | ]. split; [ done | ].
    rewrite H3. split; [ exact Hv | ]. split; [ exact Hst | exact Hst ].
Qed.

Lemma pipeline_end_to_end_witness :
  (getUserMedia_result sample_start = Fulfilled tt /\ loadedmetadata sample_start = true /\
   applyConstraints_result sample_start <> Unsettled /\
   videoWidth sample_capture <> 0 /\ videoHeight sample_capture <> 0 /\
   fetch_result sample_save
     = Fulfilled {| success := true; redirect_url := Some [47]%N; error := None |}) /\
  navigations (trace_of (saveDocument sample_save) sample_captured) = [(1000, Some [47]%N)] /\
  viewState (state_after (saveDocument sample_save) sample_captured) = Some PREVIEW.
Proof.
  assert (H : getUserMedia_result sample_start = Fulfilled tt /\
              loadedmetadata sample_start = true /\
              applyConstraints_result sample_start <> Unsettled /\
              videoWidth sample_capture <> 0 /\ videoHeight sample_capture <> 0 /\
              fetch_result sample_save
                = Fulfilled {| success := true; redirect_url := Some [47]%N; error := None |})
    by (repeat split; discriminate).
  split; [ exact H | ].
  destruct H as (Hg & Hl & Ha & Hw & Hh & Hf).
  destruct (pipeline_end_to_end sample_start sample_capture sample_save sample_state _ _
              Hg Hl eq_refl Ha Hw Hh ltac:(vm_compute; discriminate) Hf eq_refl)
    as (_ & Hn & _ & _ & Hv & _).
  split; [ exact Hn | exact Hv ].
Defined.

End CameraMore.

(** ** Upload checks, editor statistics and the library search *)

Section ScriptsMore.
Import Camera.

Lemma split_on_no_sep (sep : N) (cur s : jsstring) :
  sep ∉ s -> Str.split_on sep cur s = [reverse cur ++ s].
Proof.
  revert cur. induction s as [| c s IH]; intros cur Hs; cbn.
  - by rewrite app_nil_r.
  - apply not_elem_of_cons in Hs as [Hc Hs].
    destruct (c =? sep)%N eqn:E; [ apply N.eqb_eq in E; congruence | ].
    rewrite IH by done. by rewrite reverse_cons, <- app_assoc.
Qed.

Lemma split_on_nonempty (sep : N) (cur s : jsstring) : Str.split_on sep cur s <> [].
Proof.
  revert cur. induction s as [| c s IH]; intros cur; cbn; [ done | ].
  destruct (c =? sep)%N; [ done | apply IH ].
Qed.

Lemma last_split_on_app (sep : N) (cur a b : jsstring) :
  last (Str.split_on sep cur (a ++ sep :: b)) = last (Str.split_on sep [] b).
Proof.
  assert (Hlast : forall (x : jsstring) l, l <> [] -> last (x :: l) = last l)
    by (intros x [| y l] H; done).
  revert cur. induction a as [| c a IH]; intros cur; cbn.
  - rewrite N.eqb_refl. apply Hlast, split_on_nonempty.
  - destruct (c =? sep)%N; [ | apply IH ].
    rewrite Hlast by apply split_on_nonempty. apply IH.
Qed.

Lemma last_piece_extension (b ext : jsstring) :
  46%N ∉ ext ->
  Upload.last_piece (b ++ 46%N :: ext) = ext /\ Upload.last_piece ext = ext.
Proof.
  intros H. unfold Upload.last_piece, Str.split.
  rewrite last_split_on_app, (split_on_no_sep 46 [] ext H). done.
Qed.

(** X19.  [validateFileType] looks only at the text after the last dot of
    the name, without regard to the case of its letters; a name without a
    dot is taken whole as its extension.  For an extension of ASCII
    characters, the file is accepted exactly when the extension, in lower
    case, is one of pdf, jpg, jpeg, png, txt and docx. *)
Theorem validateFileType_extension
    (toLowerCase : jsstring -> jsstring) (b ext : jsstring) (sz : Z) :
  Str.lowers_ascii toLowerCase ->
  46%N ∉ ext -> forallb Str.is_ascii ext = true ->
  (Upload.validateFileType toLowerCase {| Upload.name := b ++ 46%N :: ext; Upload.size := sz |}
     = true
   <-> List.map Str.ascii_lower ext ∈ Upload.allowedExtensions) /\
  (Upload.validateFileType toLowerCase {| Upload.name := ext; Upload.size := sz |} = true
   <-> List.map Str.ascii_lower ext ∈ Upload.allowedExtensions).
Proof.
  intros Hlow Hdot Hascii. unfold Upload.validateFileType. cbn [Upload.name].
  destruct (last_piece_extension b ext Hdot) as [-> ->].
  rewrite (Hlow ext Hascii). split; apply bool_decide_eq_true.
Qed.

Lemma validateFileType_extension_witness :
  (Str.lowers_ascii (List.map Str.ascii_lower) /\
   (46%N ∉ Str.code_units "PDF") /\ forallb Str.is_ascii (Str.code_units "PDF") = true) /\
  Upload.validateFileType (List.map Str.ascii_lower)
    {| Upload.name := Str.code_units "scan.v2" ++ 46%N :: Str.code_units "PDF";
       Upload.size := 1 |} = true /\
  Upload.validateFileType (List.map Str.ascii_lower)
    {| Upload.name := Str.code_units "PDF"; Upload.size := 1 |} = true.
Proof.
  assert (H : Str.lowers_ascii (List.map Str.ascii_lower) /\
              (46%N ∉ Str.code_units "PDF") /\
              forallb Str.is_ascii (Str.code_units "PDF") = true).
  { split; [ by intros s _ | ]. split; [ | reflexivity ].
    vm_compute. intros Hin.
    repeat (apply elem_of_cons in Hin as [Hin | Hin]; [ discriminate Hin | ]).
    by apply elem_of_nil in Hin. }
  split; [ exact H | ].
  destruct (validateFileType_extension (List.map Str.ascii_lower)
              (Str.code_units "scan.v2") (Str.code_units "PDF") 1
              (proj1 H) (proj1 (proj2 H)) (proj2 (proj2 H))) as [H1 H2].
  assert (Hin : List.map Str.ascii_lower (Str.code_units "PDF") ∈ Upload.allowedExtensions)
    by (vm_compute; apply list_elem_of_here).
  split; [ by apply H1 | by apply H2 ].
Defined.

(** X20.  The support check of the upload script and the availability
    check of the camera script agree: [checkCameraAvailability] shows the
    message that the browser does not support the camera exactly when
    [checkCameraSupport] is false. *)
Theorem support_checks_agree (navigator : Navigator) (s : State) :
  msg_unsupported ∈ errors (trace_of (checkCameraAvailability navigator) s)
  <-> Upload.checkCameraSupport navigator = false.
Proof.
  change (Upload.checkCameraSupport navigator) with (camera_supported navigator).
  destruct (camera_supported navigator) eqn:Hsup.
  - split; [ | done ]. unfold camera_supported in Hsup.
    destruct (mediaDevices navigator) as [md |] eqn:Hmd; [ | done ].
    destruct (enumerateDevices_result md) as [devices | e |] eqn:Hen.
    + unfold trace_of. rewrite (check_enumerated navigator md devices s Hmd Hsup Hen).
      destruct (_ =? _)%nat; [ | destruct (_ && _) ]; cbn; intros H.
      * apply list_elem_of_singleton in H. vm_compute in H. discriminate H.
      * by apply elem_of_nil in H.
      * by apply elem_of_nil in H.
    + destruct (check_not_enumerated navigator md s Hmd Hsup) as (_ & -> & _);
        [ intros d; congruence | ]. intros H. by apply elem_of_nil in H.
    + destruct (check_not_enumerated navigator md s Hmd Hsup) as (_ & -> & _);
        [ intros d; congruence | ]. intros H. by apply elem_of_nil in H.
  - split; [ done | intros _ ]. unfold trace_of. rewrite (check_unsupported navigator s Hsup).
    cbn. apply list_elem_of_here.
Qed.

Lemma length_split_on (cur s : jsstring) :
  length (Str.split_on 10 cur s) = S (Editor.line_feeds s).
Proof.
  revert cur. unfold Editor.line_feeds, jsstring.
  induction s as [| c s IH]; intros cur; [ done | ].
  cbn [Str.split_on]. rewrite filter_cons. destruct (N.eqb_spec c 10) as [-> | Hne].
  - rewrite decide_True by done. cbn [length]. by rewrite IH.
  - rewrite decide_False by done. apply IH.
Qed.

(** X21.  [countLines] is one more than the number of line feeds of the
    text: the empty text has one line, and the lines of two texts joined
    by a line feed add up. *)
Theorem countLines_line_feeds (text a b : jsstring) :
  Editor.countLines text = S (Editor.line_feeds text) /\
  Editor.countLines [] = 1%nat /\
  Editor.countLines (a ++ 10%N :: b) = (Editor.countLines a + Editor.countLines b)%nat.
Proof.
  unfold Editor.countLines, Str.split. rewrite !length_split_on.
  split; [ done | ]. split; [ done | ].
  unfold Editor.line_feeds, jsstring. rewrite filter_app, filter_cons, decide_True by done.
  rewrite length_app. cbn. lia.
Qed.

Lemma count_split_ws (cur : jsstring) (gap : bool) (s : jsstring) :
  (cur <> [] -> gap = false) ->
  length (filter (fun word : jsstring => (0 < length word)%nat) (Str.split_ws_on cur gap s))
    = match cur with
      | [] => Editor.word_starts true s
      | _ :: _ => S (Editor.word_starts false s)
      end.
Proof.
  assert (Hone : forall (piece : jsstring) l,
             length (filter (fun word : jsstring => (0 < length word)%nat) (reverse piece :: l))
             = ((if piece is [] then 0 else 1)
                + length (filter (fun word : jsstring => (0 < length word)%nat) l))%nat).
  { intros piece l. rewrite filter_cons. destruct piece as [| x piece].
    - rewrite decide_False by (cbn; lia). done.
    - rewrite decide_True by (rewrite length_reverse; cbn; lia). done. }
  revert cur gap. induction s as [| c s IH]; intros cur gap Hg;
    cbn [Str.split_ws_on Editor.word_starts].
  - rewrite Hone. by destruct cur.
  - destruct (is_whitespace c).
    + destruct gap.
      * destruct cur; [ | by specialize (Hg ltac:(done)) ]. by apply IH.
      * rewrite Hone, IH by done. by destruct cur.
    + rewrite IH by done. by destruct cur.
Qed.

Lemma word_starts_trimStart (s : jsstring) :
  Editor.word_starts true (trimStart s) = Editor.word_starts true s.
Proof.
  induction s as [| c s IH]; cbn; [ done | ].
  by destruct (is_whitespace c) eqn:E; cbn; rewrite ?E.
Qed.

Lemma trimStart_split (s : jsstring) :
  exists w, Forall (fun c => is_whitespace c = true) w /\ s = w ++ trimStart s.
Proof.
  induction s as [| c s (w & Hw & IH)]; cbn.
  - by exists [].
  - destruct (is_whitespace c) eqn:E.
    + exists (c :: w). split; [ by constructor | ]. cbn. by rewrite <- IH.
    + by exists [].
Qed.

Lemma word_starts_blank (after_ws : bool) (w : jsstring) :
  Forall (fun c => is_whitespace c = true) w -> Editor.word_starts after_ws w = 0%nat.
Proof.
  intros H. revert after_ws. induction H as [| c w Hc _ IH]; intros after_ws; cbn; [ done | ].
  rewrite Hc. apply IH.
Qed.

Lemma word_starts_app_blank (after_ws : bool) (t w : jsstring) :
  Forall (fun c => is_whitespace c = true) w ->
  Editor.word_starts after_ws (t ++ w) = Editor.word_starts after_ws t.
Proof.
  intros H. revert after_ws. induction t as [| c t IH]; intros after_ws; cbn.
  - by apply word_starts_blank.
  - destruct (is_whitespace c); by rewrite IH.
Qed.

Lemma word_starts_trim (s : jsstring) :
  Editor.word_starts true (trim s) = Editor.word_starts true s.
Proof.
  unfold trim. rewrite <- (word_starts_trimStart s).
  destruct (trimStart_split (reverse (trimStart s))) as (w & Hw & E).
  apply (f_equal reverse) in E. rewrite reverse_involutive, reverse_app in E.
  rewrite E at 2. symmetry. apply word_starts_app_blank. by apply Forall_reverse.
Qed.

Lemma word_starts_join (after_ws : bool) (a b : jsstring) (c : N) :
  is_whitespace c = true ->
  Editor.word_starts after_ws (a ++ c :: b)
    = (Editor.word_starts after_ws a + Editor.word_starts true b)%nat.
Proof.
  intros Hc. revert after_ws. induction a as [| x a IH]; intros after_ws; cbn.
  - by rewrite Hc.
  - destruct (is_whitespace x); rewrite IH; lia.
Qed.

(** X22.  [countWords] is the number of words of the text, the maximal
    runs of code units that are not white space: white space at the ends
    does not count, a text of white space only has no word, and the words
    of two texts joined by a white space add up. *)
Theorem countWords_words (text a b : jsstring) (c : N) :
  is_whitespace c = true ->
  Editor.countWords text = Editor.word_starts true text /\
  Editor.countWords (c :: text) = Editor.countWords text /\
  Editor.countWords (text ++ [c]) = Editor.countWords text /\
  Editor.countWords [c] = 0%nat /\
  Editor.countWords (a ++ c :: b) = (Editor.countWords a + Editor.countWords b)%nat.
Proof.
  intros Hc.
  assert (H : forall s, Editor.countWords s = Editor.word_starts true s).
  { intros s. unfold Editor.countWords, Str.split_ws.
    rewrite count_split_ws by done. apply word_starts_trim. }
  rewrite !H. split; [ done | ]. split; [ cbn; by rewrite Hc | ].
  split; [ rewrite word_starts_join by done; cbn; lia | ].
  split; [ cbn; by rewrite Hc | ]. by apply word_starts_join.
Qed.

Lemma countWords_words_witness :
  is_whitespace 32 = true /\
  Editor.countWords (Str.code_units "  two  words " ++ 32%N :: Str.code_units "and three more")
    = 5%nat.
Proof.
  assert (H : is_whitespace 32 = true) by reflexivity.
  split; [ exact H | ].
  destruct (countWords_words [] (Str.code_units "  two  words ")
              (Str.code_units "and three more") 32 H) as (_ & _ & _ & _ & ->).
  vm_compute. reflexivity.
Defined.






End ScriptsMore.
